(** * mettle: the buffered client connection of [src/bufferev.c]

    A shallow embedding of the protocol registry, the connection object and
    its event handlers, and the properties of them that the specification
    states. *)

From Stdlib Require Import ZArith List String Ascii Bool Lia.
From Stdlib Require Import Init.Byte.
From ExtLib Require Import Structures.Monad Structures.MonadState Structures.MonadExc.
From ExtLib Require Import Data.Monads.StateMonad Data.Monads.EitherMonad.
Import ListNotations.
Import MonadNotation.

Local Open Scope Z_scope.

(* ===================================================================== *)
(** ** Protocol registry *)
(* ===================================================================== *)

Module Registry.

(** [enum network_proto]. The declaration is in [bufferev.h]; the three
    enumerators are the ones [proto_list] and [bufferev_write] name. *)
Inductive network_proto : Type :=
| network_proto_udp
| network_proto_tcp
| network_proto_tls.

Definition network_proto_eqb (p q : network_proto) : bool :=
  match p, q with
  | network_proto_udp, network_proto_udp => true
  | network_proto_tcp, network_proto_tcp => true
  | network_proto_tls, network_proto_tls => true
  | _, _ => false
  end.

(** [proto_list[]], entry for entry as the source has it: the third row
    pairs the name "tls" with [network_proto_tcp]. *)
Definition proto_list : list (network_proto * string) :=
  [ (network_proto_udp, "udp"%string);
    (network_proto_tcp, "tcp"%string);
    (network_proto_tcp, "tls"%string) ].

(** [tolower] of the C locale on one [char]. *)
Definition tolower (c : ascii) : ascii :=
  let n := nat_of_ascii c in
  if (Nat.leb 65 n && Nat.leb n 90)%bool then ascii_of_nat (n + 32) else c.

Definition char_code (c : ascii) : Z := Z.of_nat (nat_of_ascii c).

(** [strcasecmp]: the difference of the first pair of characters that
    differ after [tolower], the end of a string counting as character 0. *)
Fixpoint strcasecmp (s1 s2 : string) : Z :=
  match s1, s2 with
  | EmptyString, EmptyString => 0
  | EmptyString, String c2 _ => 0 - char_code (tolower c2)
  | String c1 _, EmptyString => char_code (tolower c1)
  | String c1 r1, String c2 r2 =>
      let d := char_code (tolower c1) - char_code (tolower c2) in
      if d =? 0 then strcasecmp r1 r2 else d
  end.

(** A string with [tolower] applied to every character. *)
Fixpoint lower (s : string) : string :=
  match s with
  | EmptyString => EmptyString
  | String c r => String (tolower c) (lower r)
  end.

(** The [for] loop of [network_proto_to_str] over the rows still to visit. *)
Fixpoint proto_to_str_from (rows : list (network_proto * string))
         (proto : network_proto) : string :=
  match rows with
  | [] => "unknown"%string
  | (p, str) :: rows' =>
      if network_proto_eqb p proto then str else proto_to_str_from rows' proto
  end.

Definition network_proto_to_str (proto : network_proto) : string :=
  proto_to_str_from proto_list proto.

(** The [for] loop of [network_str_to_proto]. *)
Fixpoint str_to_proto_from (rows : list (network_proto * string))
         (proto : string) : network_proto :=
  match rows with
  | [] => network_proto_tcp
  | (p, str) :: rows' =>
      if strcasecmp str proto =? 0 then p else str_to_proto_from rows' proto
  end.

Definition network_str_to_proto (proto : string) : network_proto :=
  str_to_proto_from proto_list proto.

End Registry.

(* ===================================================================== *)
(** ** The connection object and the world around it *)
(* ===================================================================== *)

Module Conn.
Import Registry.

(** *** Constants of the headers the source includes *)

(** [EV_READ] and [EV_WRITE] of libev's [ev.h]. *)
Definition EV_READ : Z := 1.
Definition EV_WRITE : Z := 2.

(** [errno.h] and [netinet/in.h] of Linux. *)
Definition EINTR : Z := 4.
Definition EAGAIN : Z := 11.
Definition EINPROGRESS : Z := 115.
Definition IPPROTO_UDP : Z := 17.

(** Modelled from the spec: the [BEV_*] macros are defined in [bufferev.h],
    which is not among the sources. The spec calls the event flags a bitmask
    over Connected, Error, Eof and Timeout whose members combine
    (Error|Timeout), so each is given a bit of its own. *)
Definition BEV_CONNECTED : Z := 1.
Definition BEV_ERROR : Z := 2.
Definition BEV_EOF : Z := 4.
Definition BEV_TIMEOUT : Z := 8.

Definition has_flag (flags flag : Z) : bool := negb (Z.land flags flag =? 0).

(** *** Data *)

(** Which function a [struct ev_io] calls back. *)
Inductive io_handler : Type :=
| no_handler
| h_on_connect
| h_on_read.

(** [struct ev_io], the fields [ev_io_init], [ev_io_start] and [ev_io_stop]
    touch. *)
Record ev_io : Type := mk_ev_io
  { io_active : bool;
    io_cb : io_handler;
    io_fd : Z;
    io_events : Z }.

(** [struct ev_timer]. Its only callback is [on_connect_timeout]; the
    duration is a [float] the reactor alone interprets and is left out. *)
Record ev_timer : Type := mk_ev_timer
  { timer_active : bool }.

(** [struct bufferev]. A callback field is [true] when the pointer is not
    [NULL]. The two queue pointers are assigned once, in [bufferev_new], and
    never again: the objects they point to are cells of the [world] below.
    [loop], [uri], [host], [services] and [cb_arg] take part in no decision
    of the code and are left out. *)
Record bufferev : Type := mk_bufferev
  { connect_timer : ev_timer;
    proto : network_proto;
    sock : Z;
    connected : Z;
    data_ev : ev_io;
    read_cb : bool;
    write_cb : bool;
    event_cb : bool }.

(** The object [calloc] returns: every field zero. The enumerator of value 0
    is taken to be [network_proto_udp], the first the source lists. *)
Definition zeroed : bufferev :=
  {| connect_timer := mk_ev_timer false;
     proto := network_proto_udp;
     sock := 0;
     connected := 0;
     data_ev := mk_ev_io false no_handler 0 0;
     read_cb := false;
     write_cb := false;
     event_cb := false |}.

Definition set_connect_timer (t : ev_timer) (b : bufferev) : bufferev :=
  mk_bufferev t (proto b) (sock b) (connected b) (data_ev b)
              (read_cb b) (write_cb b) (event_cb b).
Definition set_proto (p : network_proto) (b : bufferev) : bufferev :=
  mk_bufferev (connect_timer b) p (sock b) (connected b) (data_ev b)
              (read_cb b) (write_cb b) (event_cb b).
Definition set_sock (fd : Z) (b : bufferev) : bufferev :=
  mk_bufferev (connect_timer b) (proto b) fd (connected b) (data_ev b)
              (read_cb b) (write_cb b) (event_cb b).
Definition set_connected (c : Z) (b : bufferev) : bufferev :=
  mk_bufferev (connect_timer b) (proto b) (sock b) c (data_ev b)
              (read_cb b) (write_cb b) (event_cb b).
Definition set_data_ev (e : ev_io) (b : bufferev) : bufferev :=
  mk_bufferev (connect_timer b) (proto b) (sock b) (connected b) e
              (read_cb b) (write_cb b) (event_cb b).
Definition set_cbs (r w e : bool) (b : bufferev) : bufferev :=
  mk_bufferev (connect_timer b) (proto b) (sock b) (connected b) (data_ev b)
              r w e.

(** A heap object as a pointer sees it: the pointer is [NULL], or the object
    is allocated, or it has been released. *)
Inductive cell (A : Type) : Type :=
| Null
| Live (a : A)
| Freed.
Arguments Null {A}.
Arguments Live {A} a.
Arguments Freed {A}.

(** What goes wrong when a pointer is used against its cell. *)
Inductive fault : Type :=
| null_deref
| use_after_free
| double_free.

(** System calls made on behalf of the connection, as they are issued. *)
Inductive syscall : Type :=
| sys_socket (ret : Z)
| sys_nonblocking (fd : Z)
| sys_bind (fd : Z)
| sys_connect (fd : Z) (ret : Z)
| sys_getsockopt (fd : Z) (so_error : Z)
| sys_send (fd : Z) (data : list byte) (ret : Z)
| sys_recv (fd : Z) (ret : Z)
| sys_close (fd : Z)
| sys_getsockname (fd : Z) (ret : Z)
| sys_getpeername (fd : Z) (ret : Z).

(** Calls made to the owner's callbacks. [call_read_cb] records what the
    owner sees on entry through [bufferev_bytes_available] and
    [bufferev_peek]. *)
Inductive callback_call : Type :=
| call_read_cb (available : Z) (peeked : list byte)
| call_event_cb (flags : Z).

(** One connection and what surrounds it: the object [be] points to, the two
    queue objects, the reactor's registrations of [be->data_ev] and
    [be->connect_timer], the descriptors open in the process, and the two
    logs (oldest entry first). *)
Record world : Type := mk_world
  { conn : cell bufferev;
    rx_queue : cell (list byte);
    tx_queue : cell (list byte);
    loop_io : bool;
    loop_timer : bool;
    open_fds : list Z;
    syscalls : list syscall;
    calls : list callback_call }.

Definition set_conn (c : cell bufferev) (w : world) : world :=
  mk_world c (rx_queue w) (tx_queue w) (loop_io w) (loop_timer w)
           (open_fds w) (syscalls w) (calls w).
Definition set_rx_queue (q : cell (list byte)) (w : world) : world :=
  mk_world (conn w) q (tx_queue w) (loop_io w) (loop_timer w)
           (open_fds w) (syscalls w) (calls w).
Definition set_tx_queue (q : cell (list byte)) (w : world) : world :=
  mk_world (conn w) (rx_queue w) q (loop_io w) (loop_timer w)
           (open_fds w) (syscalls w) (calls w).
Definition set_loop_io (r : bool) (w : world) : world :=
  mk_world (conn w) (rx_queue w) (tx_queue w) r (loop_timer w)
           (open_fds w) (syscalls w) (calls w).
Definition set_loop_timer (r : bool) (w : world) : world :=
  mk_world (conn w) (rx_queue w) (tx_queue w) (loop_io w) r
           (open_fds w) (syscalls w) (calls w).
Definition set_open_fds (l : list Z) (w : world) : world :=
  mk_world (conn w) (rx_queue w) (tx_queue w) (loop_io w) (loop_timer w)
           l (syscalls w) (calls w).
Definition set_syscalls (l : list syscall) (w : world) : world :=
  mk_world (conn w) (rx_queue w) (tx_queue w) (loop_io w) (loop_timer w)
           (open_fds w) l (calls w).
Definition set_calls (l : list callback_call) (w : world) : world :=
  mk_world (conn w) (rx_queue w) (tx_queue w) (loop_io w) (loop_timer w)
           (open_fds w) (syscalls w) l.

(** *** The monad of the code: the world is threaded, a fault aborts *)

#[local] Existing Instance Monad_stateT.

Definition bev : Type -> Type := stateT world (sum fault).

Definition run {A : Type} (c : bev A) (w : world) : fault + (A * world) :=
  runStateT c w.

Local Open Scope monad_scope.

Definition update (f : world -> world) : bev unit :=
  w <- get ;; put (f w).

(** Dereference [be]. *)
Definition deref : bev bufferev :=
  w <- get ;;
  match conn w with
  | Null => raise null_deref
  | Live b => ret b
  | Freed => raise use_after_free
  end.

(** [be->field]. *)
Definition rd {A : Type} (field : bufferev -> A) : bev A :=
  b <- deref ;; ret (field b).

(** [be->field = v]. *)
Definition wr (assign : bufferev -> bufferev) : bev unit :=
  b <- deref ;; update (set_conn (Live (assign b))).

Definition syscall_log (s : syscall) : bev unit :=
  update (fun w => set_syscalls (syscalls w ++ [s]) w).

Definition callback_log (c : callback_call) : bev unit :=
  update (fun w => set_calls (calls w ++ [c]) w).

(** *** The byte queues *)

Inductive which_queue : Type :=
| RX   (* [be->rx_queue] *)
| TX.  (* [be->tx_queue] *)

Definition queue_cell (q : which_queue) (w : world) : cell (list byte) :=
  match q with
  | RX => rx_queue w
  | TX => tx_queue w
  end.

Definition set_queue_cell (q : which_queue) (c : cell (list byte))
           (w : world) : world :=
  match q with
  | RX => set_rx_queue c w
  | TX => set_tx_queue c w
  end.

Definition queue_bytes (q : which_queue) : bev (list byte) :=
  w <- get ;;
  match queue_cell q w with
  | Null => raise null_deref
  | Live l => ret l
  | Freed => raise use_after_free
  end.

(** Modelled from the spec: [buffer_queue.c] is not among the sources. The
    spec gives the queue as a FIFO of bytes with the contract
    [append(bytes)], [length() -> size], [copy(max_len) -> bytes]
    (non-destructive), [remove(max_len) -> bytes] (destructive) and
    [destroy()]; of [append] on the outbound queue it says that it returns
    the number of bytes enqueued. *)
Definition buffer_queue_add (q : which_queue) (data : list byte) : bev Z :=
  l <- queue_bytes q ;;
  update (set_queue_cell q (Live (l ++ data))) ;;
  ret (Z.of_nat (List.length data)).

(** Modelled from the spec: [length() -> size] of the queue contract. *)
Definition buffer_queue_len (q : which_queue) : bev Z :=
  l <- queue_bytes q ;; ret (Z.of_nat (List.length l)).

(** Modelled from the spec: [copy(max_len) -> bytes], the first [max_len]
    bytes at most, the queue unchanged. *)
Definition buffer_queue_copy (q : which_queue) (buflen : nat)
  : bev (list byte) :=
  l <- queue_bytes q ;; ret (firstn buflen l).

(** Modelled from the spec: [remove(max_len) -> bytes], the first [max_len]
    bytes at most, taken off the front of the queue. *)
Definition buffer_queue_remove (q : which_queue) (buflen : nat)
  : bev (list byte) :=
  l <- queue_bytes q ;;
  update (set_queue_cell q (Live (skipn buflen l))) ;;
  ret (firstn buflen l).

(** Modelled from the spec: [buffer_queue_new], which yields an empty queue,
    or [NULL] when the allocation fails ([ok = false]). *)
Definition buffer_queue_new (q : which_queue) (ok : bool) : bev bool :=
  (if ok then update (set_queue_cell q (Live [])) else ret tt) ;;
  ret ok.

(** Modelled from the spec: [destroy()]. Releasing through a [NULL] pointer
    does nothing, as [free] does; releasing a released queue is a fault. *)
Definition buffer_queue_free (q : which_queue) : bev unit :=
  w <- get ;;
  match queue_cell q w with
  | Null => ret tt
  | Live _ => put (set_queue_cell q Freed w)
  | Freed => raise double_free
  end.

(** *** The reactor's watcher interface (libev) *)

Definition ev_io_init (cb : io_handler) (fd events : Z) : bev unit :=
  wr (set_data_ev (mk_ev_io false cb fd events)).

Definition ev_io_start : bev unit :=
  d <- rd data_ev ;;
  if io_active d then ret tt
  else
    wr (set_data_ev (mk_ev_io true (io_cb d) (io_fd d) (io_events d))) ;;
    update (set_loop_io true).

Definition ev_io_stop : bev unit :=
  d <- rd data_ev ;;
  if io_active d then
    wr (set_data_ev (mk_ev_io false (io_cb d) (io_fd d) (io_events d))) ;;
    update (set_loop_io false)
  else ret tt.

Definition ev_timer_init : bev unit :=
  wr (set_connect_timer (mk_ev_timer false)).

Definition ev_timer_start : bev unit :=
  t <- rd connect_timer ;;
  if timer_active t then ret tt
  else
    wr (set_connect_timer (mk_ev_timer true)) ;;
    update (set_loop_timer true).

Definition ev_timer_stop : bev unit :=
  t <- rd connect_timer ;;
  if timer_active t then
    wr (set_connect_timer (mk_ev_timer false)) ;;
    update (set_loop_timer false)
  else ret tt.

(** *** The kernel *)

(** [close(fd)]: the descriptor is open no more. *)
Definition close (fd : Z) : bev unit :=
  syscall_log (sys_close fd) ;;
  update (fun w => set_open_fds (remove Z.eq_dec fd (open_fds w)) w).

(** What one [recv] call gives: bytes copied into [buf], or [-1] and an
    [errno]. The kernel hands over at most [sizeof(buf)] = 4096 bytes a
    call; nothing below depends on that bound. *)
Inductive recv_result : Type :=
| recv_ok (data : list byte)
| recv_fail (errno : Z).

Definition recv_rc (r : recv_result) : Z :=
  match r with
  | recv_ok data => Z.of_nat (List.length data)
  | recv_fail _ => -1
  end.

Definition recv_buf (r : recv_result) : list byte :=
  match r with
  | recv_ok data => data
  | recv_fail _ => []
  end.

(** What one [send] call gives: the kernel takes [room] bytes of the request
    at most, or fails with [-1] and an [errno]. *)
Inductive send_result : Type :=
| send_ok (room : nat)
| send_fail (errno : Z).

Definition send_rc (a : send_result) (len : nat) : Z :=
  match a with
  | send_ok room => Z.of_nat (Nat.min room len)
  | send_fail _ => -1
  end.

Definition send_errno (a : send_result) (errno : Z) : Z :=
  match a with
  | send_ok _ => errno
  | send_fail e => e
  end.

(** [struct addrinfo], the fields the code reads. *)
Record addrinfo : Type := mk_addrinfo
  { ai_family : Z;
    ai_socktype : Z;
    ai_protocol : Z }.

(** What the kernel answers during one [bufferev_connect_addrinfo]:
    the value of [socket], the value of [connect] and [errno] after it. *)
Record connect_answers : Type := mk_connect_answers
  { socket_ret : Z;
    connect_ret : Z;
    connect_errno : Z }.

(** *** The code of [bufferev.c] *)

Section Owner.

(** The owner's [read_cb]: how many bytes it takes off the inbound queue
    with [bufferev_read], given what [bufferev_peek] showed it. *)
Variable owner_read : list byte -> nat.

Definition bufferev_setcbs (read_cb write_cb event_cb : bool) : bev unit :=
  wr (set_cbs read_cb write_cb event_cb).

Definition bufferev_bytes_available : bev Z :=
  buffer_queue_len RX.

Definition bufferev_peek (buflen : nat) : bev (list byte) :=
  buffer_queue_copy RX buflen.

Definition bufferev_read (buflen : nat) : bev (list byte) :=
  buffer_queue_remove RX buflen.

(** [be->read_cb(be, be->cb_arg)]: the owner looks at the inbound queue
    through the two queries, the call is logged with what they showed, and
    the owner reads what it chooses to. *)
Definition invoke_read_cb : bev unit :=
  n <- bufferev_bytes_available ;;
  seen <- bufferev_peek (Z.to_nat n) ;;
  callback_log (call_read_cb n seen) ;;
  _ <- bufferev_read (owner_read seen) ;;
  ret tt.

(** [be->event_cb(be, flags, be->cb_arg)]. *)
Definition invoke_event_cb (flags : Z) : bev unit :=
  callback_log (call_event_cb flags).

(** The [do ... while] of the [network_proto_tcp] case. [answers] are the
    kernel's answers to the successive [send] calls; [None] is the loop
    still going round when they end. *)
Fixpoint tcp_write_loop (answers : list send_result) (buf : list byte)
         (errno off sent_bytes : Z) : bev (option Z) :=
  match answers with
  | [] => ret None
  | a :: answers' =>
      fd <- rd sock ;;
      let request := skipn (Z.to_nat off) buf in
      let rc := send_rc a (List.length request) in
      let errno := send_errno a errno in
      syscall_log (sys_send fd request rc) ;;
      let off := if 0 <? rc then off + rc else off in
      let sent_bytes := if 0 <? rc then sent_bytes + rc else sent_bytes in
      if (0 <? rc) || ((rc <? 0) && ((errno =? EAGAIN) || (errno =? EINTR)))
      then tcp_write_loop answers' buf errno off sent_bytes
      else ret (Some sent_bytes)
  end.

Definition bufferev_write (buf : list byte) (answers : list send_result)
  : bev (option Z) :=
  p <- rd proto ;;
  match p with
  | network_proto_udp =>
      match answers with
      | [] => ret None
      | a :: _ =>
          fd <- rd sock ;;
          let rc := send_rc a (List.length buf) in
          syscall_log (sys_send fd buf rc) ;;
          ret (Some rc)
      end
  | network_proto_tcp => tcp_write_loop answers buf 0 0 0
  | network_proto_tls =>
      n <- buffer_queue_add TX buf ;; ret (Some n)
  end.

(** The [while] of [on_read]. [script] are the kernel's answers to the
    successive [recv] calls; when they end the socket has nothing more and
    [recv] fails with [EAGAIN]. *)
Fixpoint on_read_loop (script : list recv_result) (bytes_read : Z) : bev Z :=
  match script with
  | [] =>
      fd <- rd sock ;;
      syscall_log (sys_recv fd (-1)) ;;
      ret bytes_read
  | r :: script' =>
      fd <- rd sock ;;
      let rc := recv_rc r in
      syscall_log (sys_recv fd rc) ;;
      if 0 <? rc then
        let bytes_read := bytes_read + rc in
        _ <- buffer_queue_add RX (recv_buf r) ;;
        cb <- rd read_cb ;;
        (if cb then invoke_read_cb else ret tt) ;;
        on_read_loop script' bytes_read
      else ret bytes_read
  end.

Definition on_read (script : list recv_result) : bev unit :=
  bytes_read <- on_read_loop script 0 ;;
  if bytes_read <=? 0 then
    ev_io_stop ;;
    cb <- rd event_cb ;;
    if cb then invoke_event_cb BEV_EOF else ret tt
  else ret tt.

Definition close_sock : bev unit :=
  fd <- rd sock ;;
  if 0 <=? fd then
    close fd ;;
    wr (set_sock (-1))
  else ret tt.

Definition on_connect_timeout : bev unit :=
  ev_timer_stop ;;
  c <- rd connected ;;
  if c =? 0 then
    close_sock ;;
    ev_io_stop ;;
    cb <- rd event_cb ;;
    if cb then invoke_event_cb (Z.lor BEV_ERROR BEV_TIMEOUT) else ret tt
  else ret tt.

(** [so_error] is what [getsockopt(SO_ERROR)] leaves in [status]. *)
Definition on_connect (so_error : Z) : bev unit :=
  ev_io_stop ;;
  ev_timer_stop ;;
  fd <- rd sock ;;
  syscall_log (sys_getsockopt fd so_error) ;;
  if negb (so_error =? 0) then
    cb <- rd event_cb ;;
    if cb then invoke_event_cb BEV_ERROR else ret tt
  else
    cb <- rd event_cb ;;
    (if cb then invoke_event_cb BEV_CONNECTED else ret tt) ;;
    fd <- rd sock ;;
    ev_io_init h_on_read fd EV_READ ;;
    ev_io_start ;;
    wr (set_connected 1).

(** [socket]: a descriptor (which is open from then on) or a negative
    value. *)
Definition socket (fd : Z) : bev Z :=
  syscall_log (sys_socket fd) ;;
  (if 0 <=? fd
   then update (fun w => set_open_fds (fd :: open_fds w) w)
   else ret tt) ;;
  ret fd.

Definition bufferev_connect_addrinfo (src : option addrinfo) (dst : addrinfo)
           (k : connect_answers) : bev Z :=
  fd <- socket (socket_ret k) ;;
  wr (set_sock fd) ;;
  if fd <? 0 then
    cb <- rd event_cb ;;
    (if cb then invoke_event_cb BEV_ERROR else ret tt) ;;
    ret (-1)
  else
    syscall_log (sys_nonblocking fd) ;;
    wr (set_proto (if ai_protocol dst =? IPPROTO_UDP
                   then network_proto_udp else network_proto_tcp)) ;;
    match src with
    | Some _ => syscall_log (sys_bind fd)
    | None => ret tt
    end ;;
    let rc := connect_ret k in
    syscall_log (sys_connect fd rc) ;;
    if (rc =? 0) || (connect_errno k =? EINPROGRESS) then
      ev_io_init h_on_connect fd EV_WRITE ;;
      ev_io_start ;;
      ev_timer_init ;;
      ev_timer_start ;;
      ret 0
    else
      close_sock ;;
      cb <- rd event_cb ;;
      (if cb then invoke_event_cb BEV_ERROR else ret tt) ;;
      ret (-1).

Definition bufferev_connect_tcp_sock (fd : Z) : bev Z :=
  wr (set_sock fd) ;;
  syscall_log (sys_nonblocking fd) ;;
  wr (set_proto network_proto_tcp) ;;
  ev_io_init h_on_read fd EV_READ ;;
  ev_io_start ;;
  cb <- rd event_cb ;;
  (if cb then invoke_event_cb BEV_CONNECTED else ret tt) ;;
  ret 0.

(** [free(be)]. *)
Definition free_be : bev unit :=
  w <- get ;;
  match conn w with
  | Null => ret tt
  | Live _ => put (set_conn Freed w)
  | Freed => raise double_free
  end.

(** [if (be)] tests the pointer, not the object: only [NULL] is skipped. *)
Definition bufferev_free : bev unit :=
  w <- get ;;
  match conn w with
  | Null => ret tt
  | _ =>
      ev_io_stop ;;
      buffer_queue_free RX ;;
      buffer_queue_free TX ;;
      close_sock ;;
      free_be
  end.

(** [bufferev_new]. [ok_be], [ok_rx] and [ok_tx] tell which of the three
    allocations succeed; the result is [true] for a pointer to the new
    object and [false] for [NULL]. *)
Definition bufferev_new (ok_be ok_rx ok_tx : bool) : bev bool :=
  if negb ok_be then ret false
  else
    update (set_conn (Live zeroed)) ;;
    rx <- buffer_queue_new RX ok_rx ;;
    if negb rx then bufferev_free ;; ret false
    else
      tx <- buffer_queue_new TX ok_tx ;;
      if negb tx then bufferev_free ;; ret false
      else ret true.

(** *** The reactor *)

(** What the reactor can report for this connection: readiness of the
    descriptor [be->data_ev] watches, with the kernel's answers to the
    handler that will run, or the expiry of [be->connect_timer]. *)
Inductive reactor_event : Type :=
| io_ready (revents : Z) (so_error : Z) (script : list recv_result)
| timer_expired.

(** The reactor calls a watcher back only while it is registered, and an
    I/O watcher only for the events it asked for. *)
Definition deliver (e : reactor_event) : bev unit :=
  w <- get ;;
  match e with
  | io_ready revents so_error script =>
      if loop_io w then
        d <- rd data_ev ;;
        if negb (Z.land revents (io_events d) =? 0) then
          match io_cb d with
          | no_handler => ret tt
          | h_on_connect => on_connect so_error
          | h_on_read => on_read script
          end
        else ret tt
      else ret tt
  | timer_expired =>
      if loop_timer w then on_connect_timeout else ret tt
  end.

Fixpoint deliver_all (es : list reactor_event) : bev unit :=
  match es with
  | [] => ret tt
  | e :: es' => deliver e ;; deliver_all es'
  end.

(** *** Vocabulary of the specification *)

(** The chunks one [on_read] invocation receives: the kernel's answers up
    to the first that is not positive. *)
Fixpoint chunks (script : list recv_result) : list (list byte) :=
  match script with
  | [] => []
  | r :: script' =>
      if 0 <? recv_rc r then recv_buf r :: chunks script' else []
  end.

(** The value of the [recv] call that ends the loop. *)
Fixpoint last_rc (script : list recv_result) : Z :=
  match script with
  | [] => -1
  | r :: script' => if 0 <? recv_rc r then last_rc script' else recv_rc r
  end.

Definition total_length (cs : list (list byte)) : Z :=
  fold_right (fun c n => Z.of_nat (List.length c) + n) 0 cs.

(** The inbound queue once the owner has been notified of a chunk. *)
Definition rx_step (has_cb : bool) (q c : list byte) : list byte :=
  if has_cb then skipn (owner_read (q ++ c)) (q ++ c) else q ++ c.

Fixpoint rx_after (has_cb : bool) (q : list byte) (cs : list (list byte))
  : list byte :=
  match cs with
  | [] => q
  | c :: cs' => rx_after has_cb (rx_step has_cb q c) cs'
  end.

(** The calls of [read_cb] the chunks lead to, the inbound queue holding [q]
    at first. *)
Fixpoint read_calls (has_cb : bool) (q : list byte) (cs : list (list byte))
  : list callback_call :=
  match cs with
  | [] => []
  | c :: cs' =>
      (if has_cb
       then [call_read_cb (Z.of_nat (List.length (q ++ c))) (q ++ c)]
       else [])
        ++ read_calls has_cb (rx_step has_cb q c) cs'
  end.

(** The [recv] calls one [on_read] invocation makes on descriptor [fd]: one
    for each chunk, then the one that ends the loop. *)
Definition recv_log (fd : Z) (script : list recv_result) : list syscall :=
  map (fun c => sys_recv fd (Z.of_nat (List.length c))) (chunks script)
    ++ [sys_recv fd (last_rc script)].

Definition is_read_call (c : callback_call) : bool :=
  match c with
  | call_read_cb _ _ => true
  | call_event_cb _ => false
  end.

Definition is_recv (s : syscall) : bool :=
  match s with
  | sys_recv _ _ => true
  | _ => false
  end.

(** An event that settles a connect attempt: Connected, or Error with or
    without Timeout. *)
Definition is_outcome (c : callback_call) : bool :=
  match c with
  | call_read_cb _ _ => false
  | call_event_cb flags =>
      has_flag flags BEV_CONNECTED || has_flag flags BEV_ERROR
  end.

Definition has_timeout (c : callback_call) : bool :=
  match c with
  | call_read_cb _ _ => false
  | call_event_cb flags => has_flag flags BEV_TIMEOUT
  end.

(** A call that settles nothing and reports no timeout. *)
Definition quiet (c : callback_call) : Prop :=
  is_outcome c = false /\ has_timeout c = false.

(** The three flag values that settle an attempt. *)
Definition verdict (flags : Z) : Prop :=
  flags = BEV_CONNECTED \/ flags = BEV_ERROR \/
  flags = Z.lor BEV_ERROR BEV_TIMEOUT.

(** A report of the reactor that ends a pending connect attempt: the timer,
    or writability of the socket. *)
Definition settles (e : reactor_event) : bool :=
  match e with
  | io_ready revents _ _ => negb (Z.land revents EV_WRITE =? 0)
  | timer_expired => true
  end.

(** The bytes the kernel has accepted for the wire, by the log. *)
Fixpoint wire (log : list syscall) : list byte :=
  match log with
  | [] => []
  | sys_send _ data rc :: log' => firstn (Z.to_nat rc) data ++ wire log'
  | _ :: log' => wire log'
  end.

Definition is_send (s : syscall) : bool :=
  match s with
  | sys_send _ _ _ => true
  | _ => false
  end.

(** An [errno] the write loop does not retry on. *)
Definition hard_error (errno : Z) : bool :=
  negb ((errno =? EAGAIN) || (errno =? EINTR)).

Definition is_send_ok (a : send_result) : bool :=
  match a with
  | send_ok _ => true
  | send_fail _ => false
  end.

Definition is_hard_failure (a : send_result) : bool :=
  match a with
  | send_ok _ => false
  | send_fail e => hard_error e
  end.

(** A connection as [bufferev_new] leaves it (the callbacks apart): never
    connected, nothing registered with the reactor. *)
Definition new_connection (w : world) (b : bufferev) : Prop :=
  conn w = Live b /\
  connected b = 0 /\
  io_active (data_ev b) = false /\
  timer_active (connect_timer b) = false /\
  loop_io w = false /\
  loop_timer w = false.

(** A connect attempt is pending on descriptor [fd]. *)
Definition connecting (w : world) (fd : Z) : Prop :=
  exists b,
    conn w = Live b /\
    0 <= fd /\
    connected b = 0 /\
    sock b = fd /\
    data_ev b = mk_ev_io true h_on_connect fd EV_WRITE /\
    timer_active (connect_timer b) = true /\
    loop_io w = true /\
    loop_timer w = true.

(** The connection has been established (and may have seen the end of the
    stream since). *)
Definition established (w : world) : Prop :=
  exists b q,
    conn w = Live b /\
    rx_queue w = Live q /\
    io_cb (data_ev b) = h_on_read /\
    io_active (data_ev b) = loop_io w /\
    timer_active (connect_timer b) = false /\
    loop_timer w = false.

(** Nothing of the connection is registered with the reactor. *)
Definition idle (w : world) : Prop :=
  loop_io w = false /\ loop_timer w = false.

End Owner.

(** *** Address introspection *)

(** [sys/socket.h] and [netinet/in.h] of Linux. *)
Definition AF_INET : Z := 2.
Definition AF_INET6 : Z := 10.

Definition byte_val (b : byte) : Z := Z.of_N (Byte.to_N b).

Definition byte_of_Z (z : Z) : byte :=
  match Byte.of_N (Z.to_N (z mod 256)) with
  | Some b => b
  | None => x00
  end.

(** The [uint16_t] stored at offset [off] of an object, on a little-endian
    machine. *)
Definition load16 (mem : list byte) (off : nat) : Z :=
  byte_val (nth off mem x00) + 256 * byte_val (nth (S off) mem x00).

(** [len] bytes of an object from offset [off]. *)
Definition load_bytes (mem : list byte) (off len : nat) : list byte :=
  firstn len (skipn off mem).

(** [ntohs] on a little-endian machine. *)
Definition ntohs (x : Z) : Z := (x mod 256) * 256 + (x / 256) mod 256.

(** The object representation of a pointer variable: eight bytes, least
    significant first (LP64, little-endian). *)
Definition pointer_bytes (p : Z) : list byte :=
  map (fun k => byte_of_Z (p / 256 ^ Z.of_nat k)) (seq 0 8).

(** A [struct sockaddr_storage] holding an IPv4 endpoint, as the kernel
    fills it: [sin_family] at offset 0, [sin_port] at offset 2 in network
    order, [sin_addr] at offset 4. *)
Definition sockaddr_in_bytes (port : Z) (ip : list byte) : list byte :=
  [byte_of_Z AF_INET; x00; byte_of_Z (port / 256); byte_of_Z port]
    ++ firstn 4 ip.

Section Libc.

(** [inet_ntop] of the C library: the presentation form of the address
    bytes of a family. *)
Variable inet_ntop : Z -> list byte -> string.

(** [parse_sockaddr]. [addr] is the value of the pointer parameter and
    [storage] the object it points to. The two casts take the address of the
    parameter ([&addr]), so [s] points to the parameter itself: what [s]
    reads is the eight bytes of the pointer followed by [frame], the bytes
    that come after the parameter in the stack frame. [port] is [*port] on
    entry; the result is the string handed to [strdup] and [*port] on
    return. *)
Definition parse_sockaddr (addr : Z) (storage frame : list byte) (port : Z)
  : string * Z :=
  let ss_family := load16 storage 0 in
  let s := pointer_bytes addr ++ frame in
  if ss_family =? AF_INET then
    (inet_ntop AF_INET (load_bytes s 4 4), ntohs (load16 s 2))
  else if ss_family =? AF_INET6 then
    (inet_ntop AF_INET6 (load_bytes s 8 16), ntohs (load16 s 2))
  else (EmptyString, port).

(** [answer] is what [getsockname] does: [None] when it returns [-1],
    otherwise the bytes it stores in the local [addr], which lies at address
    [stack_addr]. The result is [None] for [NULL]. *)
Definition bufferev_get_local_addr (answer : option (list byte))
           (stack_addr : Z) (frame : list byte) (port : Z)
  : bev (option (string * Z)) :=
  fd <- rd sock ;;
  match answer with
  | None => syscall_log (sys_getsockname fd (-1)) ;; ret None
  | Some storage =>
      syscall_log (sys_getsockname fd 0) ;;
      ret (Some (parse_sockaddr stack_addr storage frame port))
  end.

Definition bufferev_get_peer_addr (answer : option (list byte))
           (stack_addr : Z) (frame : list byte) (port : Z)
  : bev (option (string * Z)) :=
  fd <- rd sock ;;
  match answer with
  | None => syscall_log (sys_getpeername fd (-1)) ;; ret None
  | Some storage =>
      syscall_log (sys_getpeername fd 0) ;;
      ret (Some (parse_sockaddr stack_addr storage frame port))
  end.

End Libc.

(** The world before [bufferev_new]: no object, nothing registered. *)
Definition empty_world (fds : list Z) : world :=
  mk_world Null Null Null false false fds [] [].

(** *** Sample worlds *)

(** Two owners: one that only looks at the inbound queue, one that reads
    all of it on every call. *)
Definition reads_nothing : list byte -> nat := fun _ => 0%nat.
Definition reads_all : list byte -> nat := fun seen => List.length seen.

(** The world an operation leaves (the world it started in if it faults). *)
Definition world_after {A : Type} (c : bev A) (w : world) : world :=
  match run c w with
  | inr (_, w') => w'
  | inl _ => w
  end.

(** A process with descriptors 0, 1 and 2 open that has built a connection
    and set the three callbacks. *)
Definition sample_new : world :=
  Eval vm_compute in
    world_after (bufferev_setcbs true true true)
      (world_after (bufferev_new true true true) (empty_world [0; 1; 2])).

(** A TCP endpoint over IPv4, and a kernel that gives descriptor 3 and
    leaves the connect in progress. *)
Definition sample_dst : addrinfo := mk_addrinfo AF_INET 1 6.
Definition sample_pending : connect_answers :=
  mk_connect_answers 3 (-1) EINPROGRESS.

Definition sample_connecting : world :=
  Eval vm_compute in
    world_after (bufferev_connect_addrinfo None sample_dst sample_pending)
      sample_new.

Definition sample_connected : world :=
  Eval vm_compute in
    world_after (deliver reads_nothing (io_ready EV_WRITE 0 []))
      sample_connecting.

(** A connection whose protocol is TLS, one byte already queued outbound. *)
Definition sample_tls : world :=
  mk_world (Live (set_proto network_proto_tls (set_cbs true true true zeroed)))
           (Live []) (Live [x16]) false false [0; 1; 2] [] [].

(** Three chunks of five, three and two bytes, then no more data. *)
Definition sample_script : list recv_result :=
  [ recv_ok [x68; x65; x6c; x6c; x6f];
    recv_ok [x2c; x20; x77];
    recv_ok [x6f; x72];
    recv_fail EAGAIN;
    recv_ok [x6c; x64] ].

(** A kernel that takes two bytes, is busy twice, then has room, and at
    last finds the peer gone ([EPIPE]). *)
Definition sample_sends : list send_result :=
  [ send_ok 2; send_fail EAGAIN; send_fail EINTR; send_ok 16; send_ok 16;
    send_fail 32 ].

(** A stack address of a 64-bit Linux process (0x7ffd5e3a9c40) and the
    endpoint 127.0.0.1:8080. *)
Definition sample_stack_addr : Z := 140726184352832.
Definition sample_endpoint : list byte :=
  Eval vm_compute in sockaddr_in_bytes 8080 [x7f; x00; x00; x01].

End Conn.

(* ===================================================================== *)
(** ** The interface as a whole *)
(* ===================================================================== *)

Module Api.
Import Registry Conn.
#[local] Existing Instance Monad_stateT.
Local Open Scope monad_scope.

(** A C string: no character of it is the terminator. *)
Fixpoint nul_free (s : string) : bool :=
  match s with
  | EmptyString => true
  | String c r => negb (Ascii.eqb c zero) && nul_free r
  end.

(** [bufferev_rx_queue]: the pointer [be->rx_queue], that is the inbound
    queue itself. *)
Definition bufferev_rx_queue : bev which_queue :=
  rd (fun _ => RX).

(** One use of the connection between its construction and its teardown: a
    call of a function of the interface with the kernel's answers to it, or
    a report of the reactor. *)
Inductive api_call : Type :=
| call_setcbs (read_cb write_cb event_cb : bool)
| call_rx_queue
| call_bytes_available
| call_peek (buflen : nat)
| call_read (buflen : nat)
| call_write (buf : list byte) (answers : list send_result)
| call_connect_addrinfo (src : option addrinfo) (dst : addrinfo)
                        (k : connect_answers)
| call_connect_tcp_sock (fd : Z)
| call_get_local_addr (answer : option (list byte)) (stack_addr : Z)
                      (frame : list byte) (port : Z)
| call_get_peer_addr (answer : option (list byte)) (stack_addr : Z)
                     (frame : list byte) (port : Z)
| reactor_report (e : reactor_event).

Section Calls.

Variable owner_read : list byte -> nat.
Variable inet_ntop : Z -> list byte -> string.

Definition perform (c : api_call) : bev unit :=
  match c with
  | call_setcbs r w e => bufferev_setcbs r w e
  | call_rx_queue => _ <- bufferev_rx_queue ;; ret tt
  | call_bytes_available => _ <- bufferev_bytes_available ;; ret tt
  | call_peek buflen => _ <- bufferev_peek buflen ;; ret tt
  | call_read buflen => _ <- bufferev_read buflen ;; ret tt
  | call_write buf answers => _ <- bufferev_write buf answers ;; ret tt
  | call_connect_addrinfo src dst k =>
      _ <- bufferev_connect_addrinfo src dst k ;; ret tt
  | call_connect_tcp_sock fd => _ <- bufferev_connect_tcp_sock fd ;; ret tt
  | call_get_local_addr answer stack_addr frame port =>
      _ <- bufferev_get_local_addr inet_ntop answer stack_addr frame port ;;
      ret tt
  | call_get_peer_addr answer stack_addr frame port =>
      _ <- bufferev_get_peer_addr inet_ntop answer stack_addr frame port ;;
      ret tt
  | reactor_report e => deliver owner_read e
  end.

Fixpoint perform_all (cs : list api_call) : bev unit :=
  match cs with
  | [] => ret tt
  | c :: cs' => perform c ;; perform_all cs'
  end.

(** The bytes the owner takes off the inbound queue during a call of its
    [read_cb]. *)
Definition taken (c : callback_call) : list byte :=
  match c with
  | call_read_cb _ seen => firstn (owner_read seen) seen
  | call_event_cb _ => []
  end.

End Calls.

Definition is_setcbs (c : api_call) : bool :=
  match c with
  | call_setcbs _ _ _ => true
  | _ => false
  end.

(** An answer of the kernel the TCP write loop retries on. *)
Definition is_transient (a : send_result) : bool :=
  match a with
  | send_ok _ => false
  | send_fail e => negb (hard_error e)
  end.

Definition is_close (s : syscall) : bool :=
  match s with
  | sys_close _ => true
  | _ => false
  end.

(** The object and its two queues are allocated and not released. *)
Definition alive (w : world) : Prop :=
  exists b rq tq,
    conn w = Live b /\ rx_queue w = Live rq /\ tx_queue w = Live tq.

(** An operation keeps [P]: started in a world where [P] holds it does not
    fault, and [P] holds in the world it leaves. *)
Definition keeps {A : Type} (P : world -> Prop) (c : bev A) : Prop :=
  forall w, P w -> exists a w', run c w = inr (a, w') /\ P w'.

(** The protocol is not TLS and nothing has been queued outbound. *)
Definition plain (w : world) : Prop :=
  exists b rq,
    conn w = Live b /\ rx_queue w = Live rq /\ tx_queue w = Live [] /\
    proto b <> network_proto_tls.

(** No callback is set, and the calls made are [cs]. *)
Definition silent (cs : list callback_call) (w : world) : Prop :=
  exists b rq tq,
    conn w = Live b /\ rx_queue w = Live rq /\ tx_queue w = Live tq /\
    read_cb b = false /\ event_cb b = false /\ calls w = cs.

(** The descriptors open are [fds], and the calls of [close] made are
    [closes]. *)
Definition descriptors (fds : list Z) (closes : list syscall) (w : world)
  : Prop :=
  alive w /\ open_fds w = fds /\ filter is_close (syscalls w) = closes.

(** *** More sample worlds *)

(** An [inet_ntop] that prints nothing. *)
Definition sample_ntop : Z -> list byte -> string := fun _ _ => EmptyString.

(** The sample process right after [bufferev_new], no callback set. *)
Definition sample_bare : world :=
  Eval vm_compute in
    world_after (bufferev_new true true true) (empty_world [0; 1; 2]).

(** A kernel that gives descriptor 3 and refuses the connect at once
    ([ECONNREFUSED]), and the world the attempt leaves. *)
Definition sample_refusal : connect_answers := mk_connect_answers 3 (-1) 111.
Definition sample_refused : world :=
  Eval vm_compute in
    world_after (bufferev_connect_addrinfo None sample_dst sample_refusal)
      sample_new.

(** A second attempt on the connected sample connection, on descriptor 4. *)
Definition sample_second : connect_answers :=
  mk_connect_answers 4 (-1) EINPROGRESS.
Definition sample_reconnecting : world :=
  Eval vm_compute in
    world_after (bufferev_connect_addrinfo None sample_dst sample_second)
      sample_connected.

(** A session: connect, become writable, write, receive, read, look, ask
    for the local address, and a late timer. *)
Definition sample_session : list api_call :=
  [ call_connect_addrinfo None sample_dst sample_pending;
    reactor_report (io_ready EV_WRITE 0 []);
    call_write [x70; x69; x6e; x67; x0a] sample_sends;
    reactor_report (io_ready EV_READ 0 sample_script);
    call_bytes_available;
    call_peek 2;
    call_read 4;
    call_get_local_addr (Some sample_endpoint) sample_stack_addr [] 0;
    reactor_report timer_expired ].

End Api.

(* ===================================================================== *)
(** ** Properties of the protocol registry *)
(* ===================================================================== *)

Module RegistryFacts.
Import Registry.

Lemma network_proto_eqb_spec p q :
  reflect (p = q) (network_proto_eqb p q).
Proof. destruct p, q; constructor; congruence. Qed.

Lemma strcasecmp_refl s : strcasecmp s s = 0.
Proof.
  induction s as [|c r IH]; simpl; [reflexivity|].
  now rewrite Z.sub_diag.
Qed.

(** [strcasecmp] is 0 on strings that agree once lowered. *)
Lemma strcasecmp_lower s t :
  lower s = lower t -> strcasecmp s t = 0.
Proof.
  revert t. induction s as [|c r IH]; intros [|d u]; simpl; try discriminate.
  - reflexivity.
  - intros H. injection H as Hc Hr. rewrite Hc, Z.sub_diag. simpl. auto.
Qed.

(** The round trip holds for the two variants that have a row of their own. *)
Lemma roundtrip_udp_tcp p :
  p <> network_proto_tls ->
  network_str_to_proto (network_proto_to_str p) = p.
Proof. destruct p; intros H; try reflexivity. congruence. Qed.

(** The three names are recognised in any letter case. *)
Lemma names_case_insensitive :
  network_str_to_proto "UDP" = network_proto_udp /\
  network_str_to_proto "Udp" = network_proto_udp /\
  network_str_to_proto "TCP" = network_proto_tcp /\
  network_str_to_proto "tCp" = network_proto_tcp /\
  network_str_to_proto "" = network_proto_tcp /\
  network_str_to_proto "sctp" = network_proto_tcp.
Proof. repeat split; reflexivity. Qed.

(** A name is recognised through its lowered form alone. *)
Lemma str_to_proto_lower s t :
  lower s = lower t -> network_str_to_proto t = network_str_to_proto s.
Proof.
  intros H. unfold network_str_to_proto, proto_list.
  cbn [str_to_proto_from].
  assert (E : forall name, strcasecmp name t = strcasecmp name s).
  { intros name. revert s t H.
    induction name as [|c r IH]; intros [|a s] [|b t] H;
      simpl in *; try discriminate; try reflexivity.
    - injection H as Hc _. now rewrite Hc.
    - injection H as Hc Hr. rewrite Hc.
      destruct (char_code (tolower c) - char_code (tolower b) =? 0);
        [now apply IH|reflexivity]. }
  now rewrite !E.
Qed.

(** No name reads as [network_proto_tls]. *)
Lemma str_to_proto_never_tls s :
  network_str_to_proto s <> network_proto_tls.
Proof.
  unfold network_str_to_proto, proto_list. cbn [str_to_proto_from].
  repeat match goal with
         | |- context [if ?c then _ else _] => destruct c
         end; discriminate.
Qed.

(** C1. The round trip [network_str_to_proto (network_proto_to_str p) = p]
    is claimed for the three variants. No row of [proto_list] carries
    [network_proto_tls] (the row named "tls" carries [network_proto_tcp]), so
    [network_proto_tls] is printed as "unknown" and read back as
    [network_proto_tcp]; the name "tls" itself reads as [network_proto_tcp]
    too, and so no name at all reads as [network_proto_tls]. *)
Theorem C1_roundtrip_breaks_at_tls :
  network_proto_to_str network_proto_tls = "unknown"%string /\
  network_str_to_proto (network_proto_to_str network_proto_tls)
    = network_proto_tcp /\
  network_str_to_proto (network_proto_to_str network_proto_tls)
    <> network_proto_tls /\
  network_str_to_proto "tls" = network_proto_tcp /\
  (forall name, network_str_to_proto name <> network_proto_tls).
Proof.
  repeat split; try reflexivity; try discriminate.
  apply str_to_proto_never_tls.
Qed.

End RegistryFacts.

(* ===================================================================== *)
(** ** Properties of the connection *)
(* ===================================================================== *)

Module ConnFacts.
Import Registry Conn.
#[local] Existing Instance Monad_stateT.
Local Open Scope monad_scope.

(** *** Running the monad *)

Lemma run_bind {A B : Type} (c : bev A) (f : A -> bev B) (w : world) :
  run (bind c f) w =
  match run c w with
  | inl e => inl e
  | inr (a, w') => run (f a) w'
  end.
Proof. reflexivity. Qed.

Lemma run_ret {A : Type} (a : A) (w : world) : run (ret a) w = inr (a, w).
Proof. reflexivity. Qed.

Lemma run_get (w : world) : run get w = inr (w, w).
Proof. reflexivity. Qed.

Lemma run_put (w' w : world) : run (put w') w = inr (tt, w').
Proof. reflexivity. Qed.

Lemma run_raise {A : Type} (f : fault) (w : world) :
  run (raise f : bev A) w = inl f.
Proof. reflexivity. Qed.

Lemma run_update (f : world -> world) (w : world) :
  run (update f) w = inr (tt, f w).
Proof. reflexivity. Qed.

Lemma run_rd {A : Type} (field : bufferev -> A) (w : world) (b : bufferev) :
  conn w = Live b -> run (rd field) w = inr (field b, w).
Proof. intros H. unfold run, rd, deref. cbn. now rewrite H. Qed.

Lemma run_wr (assign : bufferev -> bufferev) (w : world) (b : bufferev) :
  conn w = Live b ->
  run (wr assign) w = inr (tt, set_conn (Live (assign b)) w).
Proof. intros H. unfold run, wr, deref. cbn. now rewrite H. Qed.

Lemma run_syscall_log (s : syscall) (w : world) :
  run (syscall_log s) w = inr (tt, set_syscalls (syscalls w ++ [s]) w).
Proof. reflexivity. Qed.

Lemma run_callback_log (c : callback_call) (w : world) :
  run (callback_log c) w = inr (tt, set_calls (calls w ++ [c]) w).
Proof. reflexivity. Qed.

Lemma run_if {A : Type} (c : bool) (x y : bev A) (w : world) :
  run (if c then x else y) w = if c then run x w else run y w.
Proof. now destruct c. Qed.

Lemma run_queue_bytes q w l :
  queue_cell q w = Live l -> run (queue_bytes q) w = inr (l, w).
Proof. intros H. unfold run, queue_bytes. cbn. now rewrite H. Qed.

Lemma run_buffer_queue_add q data w l :
  queue_cell q w = Live l ->
  run (buffer_queue_add q data) w
  = inr (Z.of_nat (List.length data), set_queue_cell q (Live (l ++ data)) w).
Proof.
  intros H. unfold buffer_queue_add.
  rewrite run_bind, (run_queue_bytes _ _ _ H). reflexivity.
Qed.

Lemma run_buffer_queue_len q w l :
  queue_cell q w = Live l ->
  run (buffer_queue_len q) w = inr (Z.of_nat (List.length l), w).
Proof.
  intros H. unfold buffer_queue_len.
  rewrite run_bind, (run_queue_bytes _ _ _ H). reflexivity.
Qed.

Lemma run_buffer_queue_copy q n w l :
  queue_cell q w = Live l ->
  run (buffer_queue_copy q n) w = inr (firstn n l, w).
Proof.
  intros H. unfold buffer_queue_copy.
  rewrite run_bind, (run_queue_bytes _ _ _ H). reflexivity.
Qed.

Lemma run_buffer_queue_remove q n w l :
  queue_cell q w = Live l ->
  run (buffer_queue_remove q n) w
  = inr (firstn n l, set_queue_cell q (Live (skipn n l)) w).
Proof.
  intros H. unfold buffer_queue_remove.
  rewrite run_bind, (run_queue_bytes _ _ _ H). reflexivity.
Qed.

(** Two worlds with the same fields are the same world. *)
Lemma world_eq (w w' : world) :
  conn w = conn w' -> rx_queue w = rx_queue w' -> tx_queue w = tx_queue w' ->
  loop_io w = loop_io w' -> loop_timer w = loop_timer w' ->
  open_fds w = open_fds w' -> syscalls w = syscalls w' ->
  calls w = calls w' -> w = w'.
Proof. destruct w, w'; simpl; intros; subst; reflexivity. Qed.

Section WithOwner.
Variable owner_read : list byte -> nat.

Lemma run_invoke_read_cb w q :
  rx_queue w = Live q ->
  run (invoke_read_cb owner_read) w
  = inr (tt, set_rx_queue (Live (skipn (owner_read q) q))
               (set_calls (calls w ++ [call_read_cb (Z.of_nat (List.length q)) q]) w)).
Proof.
  intros H. unfold invoke_read_cb, bufferev_bytes_available, bufferev_peek, bufferev_read.
  rewrite run_bind, (run_buffer_queue_len RX w q H).
  rewrite run_bind, (run_buffer_queue_copy RX _ w q H).
  rewrite Nat2Z.id, firstn_all.
  rewrite run_bind, run_callback_log.
  rewrite run_bind, (run_buffer_queue_remove RX _ _ q) by exact H.
  reflexivity.
Qed.

(** What the receive loop does, in full. *)
Lemma run_on_read_loop script :
  forall acc w b q,
    conn w = Live b -> rx_queue w = Live q ->
    run (on_read_loop owner_read script acc) w
    = inr (acc + total_length (chunks script),
           set_calls (calls w
                        ++ read_calls owner_read (read_cb b) q (chunks script))
             (set_rx_queue
                (Live (rx_after owner_read (read_cb b) q (chunks script)))
                (set_syscalls (syscalls w ++ recv_log (sock b) script) w))).
Proof.
  induction script as [|r script IH]; intros acc w b q Hb Hq.
  - cbn [on_read_loop chunks last_rc total_length fold_right read_calls
           rx_after recv_log map app].
    rewrite run_bind, (run_rd sock w b Hb).
    rewrite run_bind, run_syscall_log, run_ret.
    f_equal. f_equal; [lia|].
    apply world_eq; simpl; auto using app_nil_r.
  - cbn [on_read_loop chunks last_rc].
    rewrite run_bind, (run_rd sock w b Hb).
    rewrite run_bind, run_syscall_log.
    destruct (0 <? recv_rc r) eqn:Hrc.
    + destruct r as [data|e]; [|discriminate]. cbn [recv_buf recv_rc] in *.
      rewrite run_bind.
      rewrite (run_buffer_queue_add RX data _ q) by exact Hq.
      rewrite run_bind.
      rewrite (run_rd read_cb _ b) by exact Hb.
      rewrite run_bind.
      unfold recv_log. cbn [chunks recv_rc recv_buf].
      destruct (read_cb b) eqn:Hcb.
      * rewrite (run_invoke_read_cb _ (q ++ data)) by reflexivity.
        rewrite (IH _ _ b (skipn (owner_read (q ++ data)) (q ++ data)))
          by (try exact Hb; reflexivity).
        rewrite Hcb. cbn [chunks]. rewrite Hrc.
        cbn [total_length fold_right read_calls rx_after rx_step map recv_buf].
        f_equal. f_equal; [unfold total_length; lia|].
        apply world_eq; simpl; rewrite ?Hrc; auto;
          unfold recv_log; rewrite <- ?app_assoc; reflexivity.
      * rewrite run_ret.
        rewrite (IH _ _ b (q ++ data)) by (try exact Hb; reflexivity).
        rewrite Hcb. cbn [chunks]. rewrite Hrc.
        cbn [total_length fold_right read_calls rx_after rx_step map recv_buf].
        f_equal. f_equal; [unfold total_length; lia|].
        apply world_eq; simpl; rewrite ?Hrc; auto;
          unfold recv_log; rewrite <- ?app_assoc; reflexivity.
    + rewrite run_ret. unfold recv_log. cbn [chunks]. rewrite Hrc.
      cbn [total_length fold_right read_calls rx_after map app].
      f_equal. f_equal; [lia|].
      apply world_eq; simpl; rewrite ?Hrc; auto using app_nil_r.
Qed.

Lemma chunks_positive script :
  Forall (fun c => 0 < Z.of_nat (List.length c)) (chunks script).
Proof.
  induction script as [|r script IH]; simpl; [constructor|].
  destruct (0 <? recv_rc r) eqn:H; [|constructor].
  constructor; [|exact IH].
  destruct r; simpl in *; [lia|discriminate].
Qed.

Lemma total_length_nonneg cs : 0 <= total_length cs.
Proof. induction cs; simpl; lia. Qed.

Lemma total_length_chunks script :
  (total_length (chunks script) <=? 0)
  = match chunks script with [] => true | _ :: _ => false end.
Proof.
  pose proof (chunks_positive script) as H.
  destruct (chunks script) as [|c cs]; [reflexivity|].
  inversion H; subst. simpl.
  pose proof (total_length_nonneg cs). lia.
Qed.

(** *** The watchers *)

Lemma run_ev_io_stop w b :
  conn w = Live b ->
  run ev_io_stop w
  = inr (tt,
         if io_active (data_ev b)
         then set_loop_io false
                (set_conn
                   (Live (set_data_ev
                            (mk_ev_io false (io_cb (data_ev b))
                                      (io_fd (data_ev b))
                                      (io_events (data_ev b))) b)) w)
         else w).
Proof.
  intros H. unfold ev_io_stop.
  rewrite run_bind, (run_rd data_ev w b H).
  destruct (io_active (data_ev b)); [|reflexivity].
  rewrite run_bind, (run_wr _ w b H), run_update. reflexivity.
Qed.

Lemma run_ev_io_start w b :
  conn w = Live b ->
  run ev_io_start w
  = inr (tt,
         if io_active (data_ev b) then w
         else set_loop_io true
                (set_conn
                   (Live (set_data_ev
                            (mk_ev_io true (io_cb (data_ev b))
                                      (io_fd (data_ev b))
                                      (io_events (data_ev b))) b)) w)).
Proof.
  intros H. unfold ev_io_start.
  rewrite run_bind, (run_rd data_ev w b H).
  destruct (io_active (data_ev b)); [reflexivity|].
  rewrite run_bind, (run_wr _ w b H), run_update. reflexivity.
Qed.

Lemma run_ev_io_init cb fd events w b :
  conn w = Live b ->
  run (ev_io_init cb fd events) w
  = inr (tt, set_conn (Live (set_data_ev (mk_ev_io false cb fd events) b)) w).
Proof. intros H. unfold ev_io_init. now rewrite (run_wr _ w b H). Qed.

Lemma run_ev_timer_init w b :
  conn w = Live b ->
  run ev_timer_init w
  = inr (tt, set_conn (Live (set_connect_timer (mk_ev_timer false) b)) w).
Proof. intros H. unfold ev_timer_init. now rewrite (run_wr _ w b H). Qed.

Lemma run_ev_timer_start w b :
  conn w = Live b ->
  run ev_timer_start w
  = inr (tt,
         if timer_active (connect_timer b) then w
         else set_loop_timer true
                (set_conn (Live (set_connect_timer (mk_ev_timer true) b)) w)).
Proof.
  intros H. unfold ev_timer_start.
  rewrite run_bind, (run_rd connect_timer w b H).
  destruct (timer_active (connect_timer b)); [reflexivity|].
  rewrite run_bind, (run_wr _ w b H), run_update. reflexivity.
Qed.

Lemma run_ev_timer_stop w b :
  conn w = Live b ->
  run ev_timer_stop w
  = inr (tt,
         if timer_active (connect_timer b)
         then set_loop_timer false
                (set_conn (Live (set_connect_timer (mk_ev_timer false) b)) w)
         else w).
Proof.
  intros H. unfold ev_timer_stop.
  rewrite run_bind, (run_rd connect_timer w b H).
  destruct (timer_active (connect_timer b)); [|reflexivity].
  rewrite run_bind, (run_wr _ w b H), run_update. reflexivity.
Qed.

Lemma run_close fd w :
  run (close fd) w
  = inr (tt, set_open_fds (remove Z.eq_dec fd (open_fds w))
               (set_syscalls (syscalls w ++ [sys_close fd]) w)).
Proof. reflexivity. Qed.

Lemma run_close_sock w b :
  conn w = Live b ->
  run close_sock w
  = inr (tt,
         if 0 <=? sock b
         then set_conn (Live (set_sock (-1) b))
                (set_open_fds (remove Z.eq_dec (sock b) (open_fds w))
                   (set_syscalls (syscalls w ++ [sys_close (sock b)]) w))
         else w).
Proof.
  intros H. unfold close_sock.
  rewrite run_bind, (run_rd sock w b H).
  destruct (0 <=? sock b); [|reflexivity].
  rewrite run_bind, run_close.
  erewrite run_wr by (simpl; exact H). reflexivity.
Qed.

(** One tactic step of symbolic execution: the head operation is replaced by
    its effect. *)
Ltac exec1 :=
  first
    [ rewrite run_bind
    | rewrite run_ret
    | rewrite run_update
    | rewrite run_syscall_log
    | rewrite run_callback_log
    | rewrite run_close
    | erewrite run_rd by (simpl; eauto)
    | erewrite run_wr by (simpl; eauto)
    | erewrite run_ev_io_stop by (simpl; eauto)
    | erewrite run_ev_io_start by (simpl; eauto)
    | erewrite run_ev_io_init by (simpl; eauto)
    | erewrite run_ev_timer_init by (simpl; eauto)
    | erewrite run_ev_timer_start by (simpl; eauto)
    | erewrite run_ev_timer_stop by (simpl; eauto)
    | erewrite run_close_sock by (simpl; eauto) ].

Ltac exec := repeat (exec1; cbv beta iota).

Lemma run_on_read script w b q :
  conn w = Live b -> rx_queue w = Live q ->
  exists w' b',
    run (on_read owner_read script) w = inr (tt, w') /\
    conn w' = Live b' /\
    rx_queue w'
    = Live (rx_after owner_read (read_cb b) q (chunks script)) /\
    tx_queue w' = tx_queue w /\
    open_fds w' = open_fds w /\
    loop_timer w' = loop_timer w /\
    syscalls w' = syscalls w ++ recv_log (sock b) script /\
    calls w'
    = calls w
        ++ read_calls owner_read (read_cb b) q (chunks script)
        ++ (if (total_length (chunks script) <=? 0) && event_cb b
            then [call_event_cb BEV_EOF] else []) /\
    (if (total_length (chunks script) <=? 0) && io_active (data_ev b)
     then b' = set_data_ev (mk_ev_io false (io_cb (data_ev b))
                                     (io_fd (data_ev b))
                                     (io_events (data_ev b))) b
          /\ loop_io w' = false
     else b' = b /\ loop_io w' = loop_io w).
Proof.
  intros Hb Hq. unfold on_read.
  rewrite run_bind, (run_on_read_loop script 0 w b q Hb Hq).
  cbv beta iota. rewrite Z.add_0_l.
  destruct (total_length (chunks script) <=? 0) eqn:Ht.
  - exec. destruct (io_active (data_ev b)) eqn:Ha.
    + exec. simpl. destruct (event_cb b); exec;
        (do 2 eexists; split; [reflexivity|]); simpl;
        rewrite ?app_nil_r, <- ?app_assoc; repeat split; auto.
    + exec. destruct (event_cb b); exec;
        (do 2 eexists; split; [reflexivity|]); simpl;
        rewrite ?app_nil_r, <- ?app_assoc; repeat split; auto.
  - exec. do 2 eexists; split; [reflexivity|]; simpl.
    rewrite ?app_nil_r; repeat split; auto.
Qed.

(** *** Starting a connect attempt *)

Lemma run_socket fd w :
  run (socket fd) w
  = inr (fd,
         if 0 <=? fd
         then set_open_fds (fd :: open_fds w)
                (set_syscalls (syscalls w ++ [sys_socket fd]) w)
         else set_syscalls (syscalls w ++ [sys_socket fd]) w).
Proof. unfold socket. exec. destruct (0 <=? fd); exec; reflexivity. Qed.

Lemma connect_socket_fails w b src dst k :
  conn w = Live b -> socket_ret k < 0 ->
  exists w',
    run (bufferev_connect_addrinfo src dst k) w = inr (-1, w') /\
    calls w'
    = calls w ++ (if event_cb b then [call_event_cb BEV_ERROR] else []) /\
    loop_io w' = loop_io w /\ loop_timer w' = loop_timer w /\
    open_fds w' = open_fds w.
Proof.
  intros Hb Hfd. unfold bufferev_connect_addrinfo.
  rewrite run_bind, run_socket.
  assert (H1 : (0 <=? socket_ret k) = false) by lia.
  assert (H2 : (socket_ret k <? 0) = true) by lia.
  rewrite H1. exec. rewrite H2. exec. simpl.
  destruct (event_cb b); exec; eexists; (split; [reflexivity|]); simpl;
    rewrite ?app_nil_r; auto.
Qed.

Lemma connect_refused w b src dst k :
  conn w = Live b -> 0 <= socket_ret k ->
  connect_ret k <> 0 -> connect_errno k <> EINPROGRESS ->
  exists w',
    run (bufferev_connect_addrinfo src dst k) w = inr (-1, w') /\
    calls w'
    = calls w ++ (if event_cb b then [call_event_cb BEV_ERROR] else []) /\
    loop_io w' = loop_io w /\ loop_timer w' = loop_timer w /\
    open_fds w' = remove Z.eq_dec (socket_ret k) (open_fds w).
Proof.
  intros Hb Hfd Hrc Herr. unfold bufferev_connect_addrinfo.
  rewrite run_bind, run_socket.
  assert (H1 : (0 <=? socket_ret k) = true) by lia.
  assert (H2 : (socket_ret k <? 0) = false) by lia.
  assert (H3 : ((connect_ret k =? 0) || (connect_errno k =? EINPROGRESS))
               = false).
  { apply orb_false_iff; split; apply Z.eqb_neq; assumption. }
  rewrite H1. exec. rewrite H2. exec.
  destruct src; exec; rewrite H3; exec; simpl; rewrite H1; exec; simpl;
    destruct (event_cb b); exec; eexists; (split; [reflexivity|]); simpl;
    rewrite ?app_nil_r; destruct (Z.eq_dec (socket_ret k) (socket_ret k));
    try congruence; auto.
Qed.

Lemma connect_pending w b src dst k :
  conn w = Live b -> 0 <= socket_ret k ->
  connect_ret k = 0 \/ connect_errno k = EINPROGRESS ->
  exists w' b',
    run (bufferev_connect_addrinfo src dst k) w = inr (0, w') /\
    conn w' = Live b' /\
    connected b' = connected b /\
    sock b' = socket_ret k /\
    data_ev b' = mk_ev_io true h_on_connect (socket_ret k) EV_WRITE /\
    timer_active (connect_timer b') = true /\
    read_cb b' = read_cb b /\ event_cb b' = event_cb b /\
    loop_io w' = true /\ loop_timer w' = true /\
    calls w' = calls w /\
    rx_queue w' = rx_queue w /\ tx_queue w' = tx_queue w /\
    open_fds w' = socket_ret k :: open_fds w.
Proof.
  intros Hb Hfd Hrc. unfold bufferev_connect_addrinfo.
  rewrite run_bind, run_socket.
  assert (H1 : (0 <=? socket_ret k) = true) by lia.
  assert (H2 : (socket_ret k <? 0) = false) by lia.
  assert (H3 : ((connect_ret k =? 0) || (connect_errno k =? EINPROGRESS))
               = true).
  { apply orb_true_iff. destruct Hrc; [left|right]; now apply Z.eqb_eq. }
  rewrite H1. exec. rewrite H2. exec.
  destruct src; exec; rewrite H3; exec; simpl; exec; simpl;
    do 2 eexists; (split; [reflexivity|]); simpl; repeat split; auto.
Qed.

(** *** The handlers of a pending attempt *)

Lemma run_on_connect_timeout w b :
  conn w = Live b -> connected b = 0 -> 0 <= sock b ->
  timer_active (connect_timer b) = true ->
  io_active (data_ev b) = true ->
  exists w' b',
    run on_connect_timeout w = inr (tt, w') /\
    conn w' = Live b' /\
    sock b' = -1 /\
    io_active (data_ev b') = false /\
    timer_active (connect_timer b') = false /\
    loop_io w' = false /\ loop_timer w' = false /\
    syscalls w' = syscalls w ++ [sys_close (sock b)] /\
    open_fds w' = remove Z.eq_dec (sock b) (open_fds w) /\
    calls w'
    = calls w
        ++ (if event_cb b
            then [call_event_cb (Z.lor BEV_ERROR BEV_TIMEOUT)] else []).
Proof.
  intros Hb Hc Hfd Ht Hio. unfold on_connect_timeout.
  assert (H1 : (0 <=? sock b) = true) by lia.
  exec. rewrite Ht. exec. simpl. rewrite Hc. cbv beta iota.
  change (0 =? 0) with true. cbv iota.
  exec. simpl. rewrite H1. exec. simpl. rewrite Hio. exec. simpl.
  destruct (event_cb b); exec; do 2 eexists; (split; [reflexivity|]);
    simpl; rewrite ?app_nil_r; repeat split; auto.
Qed.

Lemma run_on_connect_error w b so_error :
  conn w = Live b -> so_error <> 0 ->
  timer_active (connect_timer b) = true ->
  io_active (data_ev b) = true ->
  exists w' b',
    run (on_connect so_error) w = inr (tt, w') /\
    conn w' = Live b' /\
    sock b' = sock b /\
    connected b' = connected b /\
    io_active (data_ev b') = false /\
    timer_active (connect_timer b') = false /\
    loop_io w' = false /\ loop_timer w' = false /\
    syscalls w' = syscalls w ++ [sys_getsockopt (sock b) so_error] /\
    open_fds w' = open_fds w /\
    calls w'
    = calls w ++ (if event_cb b then [call_event_cb BEV_ERROR] else []).
Proof.
  intros Hb Hso Ht Hio. unfold on_connect.
  assert (H1 : negb (so_error =? 0) = true).
  { apply negb_true_iff, Z.eqb_neq, Hso. }
  exec. rewrite Hio. exec. simpl. rewrite Ht. exec. simpl. rewrite H1.
  exec. simpl.
  destruct (event_cb b); exec; do 2 eexists; (split; [reflexivity|]);
    simpl; rewrite ?app_nil_r; repeat split; auto.
Qed.

Lemma run_on_connect_success w b :
  conn w = Live b ->
  timer_active (connect_timer b) = true ->
  io_active (data_ev b) = true ->
  exists w' b',
    run (on_connect 0) w = inr (tt, w') /\
    conn w' = Live b' /\
    sock b' = sock b /\
    connected b' = 1 /\
    data_ev b' = mk_ev_io true h_on_read (sock b) EV_READ /\
    timer_active (connect_timer b') = false /\
    read_cb b' = read_cb b /\ event_cb b' = event_cb b /\
    loop_io w' = true /\ loop_timer w' = false /\
    syscalls w' = syscalls w ++ [sys_getsockopt (sock b) 0] /\
    open_fds w' = open_fds w /\
    rx_queue w' = rx_queue w /\ tx_queue w' = tx_queue w /\
    calls w'
    = calls w ++ (if event_cb b then [call_event_cb BEV_CONNECTED] else []).
Proof.
  intros Hb Ht Hio. unfold on_connect.
  exec. rewrite Hio. exec. simpl. rewrite Ht. exec. simpl.
  destruct (event_cb b) eqn:He; exec; simpl; exec; simpl;
    do 2 eexists; (split; [reflexivity|]);
    simpl; rewrite ?app_nil_r; repeat split; auto.
Qed.

(** *** What the reactor's reports lead to *)

Lemma read_calls_quiet has_cb q cs :
  Forall quiet (read_calls owner_read has_cb q cs).
Proof.
  revert q. induction cs as [|c cs IH]; intros q; simpl; [constructor|].
  apply Forall_app. split; [|apply IH].
  destruct has_cb; repeat constructor.
Qed.

Lemma deliver_idle e w :
  idle w -> run (deliver owner_read e) w = inr (tt, w).
Proof.
  intros [Hio Ht]. unfold deliver. rewrite run_bind, run_get.
  destruct e; rewrite ?Hio, ?Ht; reflexivity.
Qed.

Lemma deliver_all_idle es w :
  idle w -> run (deliver_all owner_read es) w = inr (tt, w).
Proof.
  intros H. induction es as [|e es IH]; [reflexivity|].
  cbn [deliver_all]. rewrite run_bind, (deliver_idle e w H). exact IH.
Qed.

Lemma deliver_established e w :
  established w ->
  exists w' extra,
    run (deliver owner_read e) w = inr (tt, w') /\
    established w' /\
    calls w' = calls w ++ extra /\
    Forall quiet extra.
Proof.
  intros (b & q & Hb & Hq & Hcb & Hact & Ht & Hlt).
  assert (Hsame : exists w' extra,
             inr (tt, w) = inr (tt, w') :> fault + unit * world /\
             established w' /\ calls w' = calls w ++ extra /\
             Forall quiet extra).
  { exists w, []. rewrite app_nil_r. repeat split; auto.
    exists b, q. repeat split; auto. }
  unfold deliver. rewrite run_bind, run_get.
  destruct e as [revents so_error script|].
  - destruct (loop_io w) eqn:Hio; [|exact Hsame].
    exec. destruct (negb (Z.land revents (io_events (data_ev b)) =? 0));
      [|exec; exact Hsame].
    rewrite Hcb.
    destruct (run_on_read script w b q Hb Hq)
      as (w' & b' & Hrun & Hb' & Hq' & _ & _ & Hlt' & _ & Hcalls & Hio').
    rewrite Hrun. do 2 eexists. split; [reflexivity|].
    split; [|split; [exact Hcalls|]].
    + exists b'. eexists. split; [exact Hb'|]. split; [exact Hq'|].
      destruct ((total_length (chunks script) <=? 0)
                && io_active (data_ev b)) eqn:Hc.
      * destruct Hio' as [-> ->]. simpl. repeat split; auto; congruence.
      * destruct Hio' as [-> ->]. repeat split; auto; congruence.
    + apply Forall_app. split; [apply read_calls_quiet|].
      destruct ((total_length (chunks script) <=? 0) && event_cb b);
        repeat constructor.
  - rewrite Hlt. exact Hsame.
Qed.

Lemma deliver_all_established es :
  forall w,
    established w ->
    exists w' extra,
      run (deliver_all owner_read es) w = inr (tt, w') /\
      established w' /\
      calls w' = calls w ++ extra /\
      Forall quiet extra.
Proof.
  induction es as [|e es IH]; intros w Hw.
  - exists w, []. rewrite app_nil_r. repeat split; auto.
  - destruct (deliver_established e w Hw) as (w1 & x1 & Hrun & Hw1 & Hc1 & Hq1).
    destruct (IH w1 Hw1) as (w2 & x2 & Hrun2 & Hw2 & Hc2 & Hq2).
    exists w2, (x1 ++ x2). cbn [deliver_all].
    rewrite run_bind, Hrun. split; [exact Hrun2|].
    split; [exact Hw2|]. split.
    + rewrite Hc2, Hc1, app_assoc. reflexivity.
    + apply Forall_app. split; assumption.
Qed.

(** A report that does not settle the attempt changes nothing. *)
Lemma deliver_connecting_other e w fd :
  connecting w fd -> settles e = false ->
  run (deliver owner_read e) w = inr (tt, w).
Proof.
  intros (b & Hb & Hfd & Hc & Hs & Hd & Ht & Hio & Hlt) He.
  destruct e as [revents so_error script|]; [|discriminate].
  simpl in He. apply negb_false_iff in He.
  unfold deliver. rewrite run_bind, run_get, Hio. exec.
  rewrite Hd. cbn [io_events]. now rewrite He.
Qed.

Lemma deliver_connecting_settles e w fd b q :
  connecting w fd -> conn w = Live b -> event_cb b = true ->
  rx_queue w = Live q -> settles e = true ->
  exists w' flags,
    run (deliver owner_read e) w = inr (tt, w') /\
    calls w' = calls w ++ [call_event_cb flags] /\
    verdict flags /\
    (flags = BEV_CONNECTED /\ established w' \/
     flags <> BEV_CONNECTED /\ idle w').
Proof.
  intros (b0 & Hb & Hfd & Hc & Hs & Hd & Ht & Hio & Hlt) Hb' Hev Hq He.
  rewrite Hb in Hb'. injection Hb' as <-.
  assert (Hact : io_active (data_ev b0) = true) by now rewrite Hd.
  unfold deliver. rewrite run_bind, run_get.
  destruct e as [revents so_error script|].
  - simpl in He. rewrite Hio. exec. rewrite Hd. cbn [io_events io_cb].
    rewrite He. 
    destruct (Z.eq_dec so_error 0) as [->|Hso].
    + destruct (run_on_connect_success w b0 Hb Ht Hact)
        as (w' & b' & Hrun & Hb' & Hs' & Hc' & Hd' & Ht' & _ & _ & Hio'
            & Hlt' & _ & _ & Hrx & _ & Hcalls).
      rewrite Hev in Hcalls.
      exists w', BEV_CONNECTED. split; [exact Hrun|]. split; [exact Hcalls|].
      split; [left; reflexivity|]. left. split; [reflexivity|].
      exists b', q. rewrite Hd'. cbn [io_cb io_active].
      repeat split; auto; congruence.
    + destruct (run_on_connect_error w b0 so_error Hb Hso Ht Hact)
        as (w' & b' & Hrun & Hb' & _ & _ & _ & _ & Hio' & Hlt' & _ & _
            & Hcalls).
      rewrite Hev in Hcalls.
      exists w', BEV_ERROR. split; [exact Hrun|]. split; [exact Hcalls|].
      split; [right; left; reflexivity|]. right.
      split; [discriminate|]. split; assumption.
  - rewrite Hlt.
    assert (Hfd' : 0 <= sock b0) by lia.
    destruct (run_on_connect_timeout w b0 Hb Hc Hfd' Ht Hact)
      as (w' & b' & Hrun & Hb' & _ & _ & _ & Hio' & Hlt' & _ & _ & Hcalls).
    rewrite Hev in Hcalls.
    exists w', (Z.lor BEV_ERROR BEV_TIMEOUT).
    split; [exact Hrun|]. split; [exact Hcalls|].
    split; [right; right; reflexivity|]. right.
    split; [discriminate|]. split; assumption.
Qed.

(** The calls a pending attempt leads to, whatever the reactor reports and
    in whatever order: nothing until a report settles it, then one verdict,
    then only calls that are no verdict and carry no Timeout. *)
Lemma deliver_all_connecting es :
  forall w fd b q,
    connecting w fd -> conn w = Live b -> event_cb b = true ->
    rx_queue w = Live q ->
    exists w' extra,
      run (deliver_all owner_read es) w = inr (tt, w') /\
      calls w' = calls w ++ extra /\
      (if existsb settles es
       then exists flags rest,
           extra = call_event_cb flags :: rest /\ verdict flags /\
           Forall quiet rest
       else extra = []).
Proof.
  induction es as [|e es IH]; intros w fd b q Hw Hb Hev Hq.
  - exists w, []. rewrite app_nil_r. repeat split; auto.
  - cbn [deliver_all existsb]. rewrite run_bind.
    destruct (settles e) eqn:He.
    + destruct (deliver_connecting_settles e w fd b q Hw Hb Hev Hq He)
        as (w1 & flags & Hrun & Hcalls & Hv & Hnext).
      rewrite Hrun. cbn [orb].
      destruct Hnext as [[_ Hest]|[_ Hidle]].
      * destruct (deliver_all_established es w1 Hest)
          as (w2 & rest & Hrun2 & _ & Hc2 & Hq2).
        exists w2, (call_event_cb flags :: rest).
        split; [exact Hrun2|]. split.
        -- rewrite Hc2, Hcalls, <- app_assoc. reflexivity.
        -- exists flags, rest. auto.
      * exists w1, [call_event_cb flags].
        split; [apply deliver_all_idle; exact Hidle|].
        split; [exact Hcalls|].
        exists flags, []. auto.
    + rewrite (deliver_connecting_other e w fd Hw He). cbn [orb].
      exact (IH w fd b q Hw Hb Hev Hq).
Qed.

(** *** Teardown *)

Lemma run_buffer_queue_free q w l :
  queue_cell q w = Live l ->
  run (buffer_queue_free q) w = inr (tt, set_queue_cell q Freed w).
Proof.
  intros H. unfold buffer_queue_free. rewrite run_bind, run_get, H.
  reflexivity.
Qed.

Lemma run_free_be w b :
  conn w = Live b -> run free_be w = inr (tt, set_conn Freed w).
Proof.
  intros H. unfold free_be. rewrite run_bind, run_get, H. reflexivity.
Qed.

Lemma run_bufferev_free_released w :
  conn w = Freed -> run bufferev_free w = inl use_after_free.
Proof.
  intros H. unfold bufferev_free. rewrite run_bind, run_get, H.
  unfold ev_io_stop, rd, deref.
  rewrite !run_bind, run_get, H. reflexivity.
Qed.

Lemma run_bufferev_free w b rq tq :
  conn w = Live b -> rx_queue w = Live rq -> tx_queue w = Live tq ->
  exists w',
    run bufferev_free w = inr (tt, w') /\
    conn w' = Freed /\ rx_queue w' = Freed /\ tx_queue w' = Freed /\
    loop_io w' = (if io_active (data_ev b) then false else loop_io w) /\
    loop_timer w' = loop_timer w /\
    syscalls w'
    = syscalls w ++ (if 0 <=? sock b then [sys_close (sock b)] else []) /\
    open_fds w'
    = (if 0 <=? sock b
       then remove Z.eq_dec (sock b) (open_fds w) else open_fds w) /\
    calls w' = calls w.
Proof.
  intros Hb Hrx Htx. unfold bufferev_free.
  rewrite run_bind, run_get, Hb.
  destruct (io_active (data_ev b)) eqn:Ha; exec; rewrite Ha; exec;
    (erewrite run_buffer_queue_free by (simpl; eauto)); exec;
    (erewrite run_buffer_queue_free by (simpl; eauto)); exec;
    cbn [sock set_data_ev];
    (destruct (0 <=? sock b);
     (erewrite run_free_be by (simpl; eauto));
     eexists; (split; [reflexivity|]); simpl;
     rewrite ?app_nil_r; repeat split; auto).
Qed.

(** *** Writing *)

Lemma firstn_more {A : Type} (a b : nat) (l : list A) :
  firstn a l ++ firstn b (skipn a l) = firstn (a + b) l.
Proof.
  revert l. induction a as [|a IH]; intros l; [reflexivity|].
  destruct l as [|x l]; simpl; [now rewrite firstn_nil|].
  now rewrite IH.
Qed.

Lemma send_rc_range a len :
  -1 <= send_rc a len <= Z.of_nat len.
Proof. destruct a; cbn [send_rc]; lia. Qed.

Lemma send_rc_progress a len :
  a <> send_ok 0 -> is_send_ok a = true -> (0 < len)%nat ->
  0 < send_rc a len.
Proof.
  destruct a as [[|room]|e]; cbn [send_rc is_send_ok]; intros;
    try congruence; lia.
Qed.

(** Where the write loop stands when it returns: [n] more bytes are on the
    wire, in the order of [buf], and either that is all of them or the last
    [send] failed for good. *)
Lemma run_tcp_write_loop answers :
  forall buf errno off sent w b,
    conn w = Live b ->
    0 <= off <= Z.of_nat (List.length buf) ->
    Forall (fun a => a <> send_ok 0) answers ->
    exists res sends,
      run (tcp_write_loop answers buf errno off sent) w
      = inr (res, set_syscalls (syscalls w ++ sends) w) /\
      forall r, res = Some r ->
        exists n,
          r = sent + Z.of_nat n /\
          off + Z.of_nat n <= Z.of_nat (List.length buf) /\
          wire sends = firstn n (skipn (Z.to_nat off) buf) /\
          (off + Z.of_nat n = Z.of_nat (List.length buf) \/
           exists pre e post,
             answers = pre ++ send_fail e :: post /\
             hard_error e = true /\
             List.length sends = S (List.length pre)).
Proof.
  induction answers as [|a answers IH];
    intros buf errno off sent w b Hb Hoff Hok.
  - exists None, []. split.
    + cbn [tcp_write_loop]. rewrite run_ret. f_equal. f_equal.
      destruct w; simpl. now rewrite app_nil_r.
    + discriminate.
  - inversion Hok as [|? ? Ha Hrest]; subst.
    cbn [tcp_write_loop].
    rewrite run_bind, (run_rd sock w b Hb).
    rewrite run_bind, run_syscall_log.
    set (request := skipn (Z.to_nat off) buf).
    assert (Hlen : Z.of_nat (List.length request)
                   = Z.of_nat (List.length buf) - off).
    { unfold request. rewrite length_skipn. lia. }
    pose proof (send_rc_range a (List.length request)) as Hrange.
    set (rc := send_rc a (List.length request)) in *.
    destruct (0 <? rc) eqn:Hpos.
    + (* progress: the loop goes round *)
      cbn [orb].
      destruct (IH buf (send_errno a errno) (off + rc) (sent + rc)
                   (set_syscalls (syscalls w ++ [sys_send (sock b) request rc]) w)
                   b) as (res & sends & Hrun & Hres);
        [exact Hb | lia | exact Hrest |].
      rewrite Hrun.
      exists res, (sys_send (sock b) request rc :: sends). split.
      * f_equal. f_equal. destruct w; simpl. now rewrite <- app_assoc.
      * intros r Hr. destruct (Hres r Hr) as (n & Hn1 & Hn2 & Hn3 & Hn4).
        exists (Z.to_nat rc + n)%nat. split; [lia|]. split; [lia|]. split.
        -- cbn [wire]. rewrite Hn3.
           replace (Z.to_nat (off + rc))
             with (Z.to_nat rc + Z.to_nat off)%nat by lia.
           rewrite <- skipn_skipn. apply firstn_more.
        -- destruct Hn4 as [Hfull|(pre & e & post & Hans & He & Hl)].
           ++ left. lia.
           ++ right. exists (a :: pre), e, post. simpl.
              rewrite Hans, Hl. auto.
    + (* no progress *)
      destruct a as [room|e].
      * (* the kernel took nothing: the request was empty *)
        assert (Hrc : rc = 0).
        { apply Z.ltb_ge in Hpos. unfold rc in *. cbn [send_rc] in *. lia. }
        rewrite Hrc. cbn [orb andb Z.ltb Z.compare]. rewrite run_ret.
        exists (Some sent), [sys_send (sock b) request 0]. split.
        -- reflexivity.
        -- intros r Hr. injection Hr as <-. exists 0%nat.
           split; [lia|]. split; [lia|]. split; [reflexivity|].
           left. unfold rc in Hrc. cbn [send_rc] in Hrc.
           destruct room as [|room]; [congruence|]. lia.
      * change rc with (-1). cbn [orb andb Z.ltb Z.compare send_errno].
        destruct ((e =? EAGAIN) || (e =? EINTR)) eqn:Hretry.
        -- destruct (IH buf e off sent
                       (set_syscalls
                          (syscalls w ++ [sys_send (sock b) request (-1)]) w)
                       b) as (res & sends & Hrun & Hres);
             [exact Hb | lia | exact Hrest |].
           rewrite Hrun.
           exists res, (sys_send (sock b) request (-1) :: sends). split.
           ++ f_equal. f_equal. destruct w; simpl. now rewrite <- app_assoc.
           ++ intros r Hr.
              destruct (Hres r Hr) as (n & Hn1 & Hn2 & Hn3 & Hn4).
              exists n. split; [exact Hn1|]. split; [exact Hn2|]. split.
              ** cbn [wire Z.to_nat firstn app]. exact Hn3.
              ** destruct Hn4 as [Hfull|(pre & e' & post & Hans & He & Hl)].
                 --- left. exact Hfull.
                 --- right. exists (send_fail e :: pre), e', post. simpl.
                     rewrite Hans, Hl. auto.
        -- rewrite run_ret.
           exists (Some sent), [sys_send (sock b) request (-1)]. split.
           ++ reflexivity.
           ++ intros r Hr. injection Hr as <-. exists 0%nat.
              split; [lia|]. split; [lia|]. split; [reflexivity|].
              right. exists [], e, answers. simpl.
              unfold hard_error. rewrite Hretry. auto.
Qed.

(** The write loop returns once the kernel fails for good, or has answered
    with room more often than there are bytes to send. *)
Lemma tcp_write_loop_returns answers :
  forall buf errno off sent w b,
    conn w = Live b ->
    0 <= off <= Z.of_nat (List.length buf) ->
    Forall (fun a => a <> send_ok 0) answers ->
    existsb is_hard_failure answers = true \/
    Z.of_nat (List.length buf) - off
    < Z.of_nat (List.length (filter is_send_ok answers)) ->
    exists r w',
      run (tcp_write_loop answers buf errno off sent) w = inr (Some r, w').
Proof.
  induction answers as [|a answers IH];
    intros buf errno off sent w b Hb Hoff Hok Hend.
  - simpl in Hend. destruct Hend; [discriminate|lia].
  - inversion Hok as [|? ? Ha Hrest]; subst.
    cbn [tcp_write_loop].
    rewrite run_bind, (run_rd sock w b Hb).
    rewrite run_bind, run_syscall_log.
    set (request := skipn (Z.to_nat off) buf).
    assert (Hlen : Z.of_nat (List.length request)
                   = Z.of_nat (List.length buf) - off).
    { unfold request. rewrite length_skipn. lia. }
    pose proof (send_rc_range a (List.length request)) as Hrange.
    set (rc := send_rc a (List.length request)) in *.
    destruct (0 <? rc) eqn:Hpos.
    + cbn [orb]. eapply IH; [exact Hb | lia | exact Hrest |].
      destruct a as [room|e].
      * cbn [existsb is_hard_failure orb filter is_send_ok List.length]
          in Hend.
        destruct Hend as [Hend|Hend]; [left; exact Hend | right; lia].
      * unfold rc in Hpos. cbn [send_rc] in Hpos. discriminate.
    + destruct a as [room|e].
      * assert (Hrc : rc = 0).
        { apply Z.ltb_ge in Hpos. unfold rc in *. cbn [send_rc] in *. lia. }
        rewrite Hrc. cbn [orb andb Z.ltb Z.compare]. rewrite run_ret.
        eauto.
      * change rc with (-1). cbn [orb andb Z.ltb Z.compare send_errno].
        destruct ((e =? EAGAIN) || (e =? EINTR)) eqn:Hretry.
        -- eapply IH; [exact Hb | lia | exact Hrest |].
           cbn [existsb is_hard_failure orb filter is_send_ok] in Hend.
           unfold hard_error in Hend. rewrite Hretry in Hend.
           exact Hend.
        -- rewrite run_ret. eauto.
Qed.

(** *** Reading: the claims *)

Lemma read_calls_are_read_calls has_cb q cs :
  Forall (fun c => is_read_call c = true)
         (read_calls owner_read has_cb q cs).
Proof.
  revert q. induction cs as [|c cs IH]; intros q; simpl; [constructor|].
  apply Forall_app. split; [|apply IH].
  destruct has_cb; repeat constructor.
Qed.

Lemma filter_read_calls q cs tail :
  Forall (fun c => is_read_call c = false) tail ->
  filter is_read_call (read_calls owner_read true q cs ++ tail)
  = read_calls owner_read true q cs.
Proof.
  intros Htail. rewrite filter_app.
  replace (filter is_read_call tail) with (@nil callback_call).
  - rewrite app_nil_r. apply forallb_filter_id, forallb_forall.
    apply Forall_forall, read_calls_are_read_calls.
  - induction Htail as [|c tail Hc _ IH]; simpl; [reflexivity|].
    now rewrite Hc.
Qed.

Lemma read_calls_length q cs :
  List.length (read_calls owner_read true q cs) = List.length cs.
Proof.
  revert q. induction cs as [|c cs IH]; intros q; simpl; [reflexivity|].
  now rewrite IH.
Qed.

Lemma last_rc_nonpositive script : last_rc script <= 0.
Proof.
  induction script as [|r script IH]; simpl; [lia|].
  destruct (0 <? recv_rc r) eqn:H; [exact IH|lia].
Qed.

(** The loop ends at the first answer that is not positive; it asks for
    nothing after it. *)
Lemma loop_ends_at_first_nonpositive pre r post :
  Forall (fun x => 0 < recv_rc x) pre -> recv_rc r <= 0 ->
  chunks (pre ++ r :: post) = map recv_buf pre /\
  last_rc (pre ++ r :: post) = recv_rc r.
Proof.
  intros Hpre Hr. induction Hpre as [|x pre Hx _ IH]; simpl.
  - assert (H : (0 <? recv_rc r) = false) by lia. now rewrite H.
  - assert (H : (0 <? recv_rc x) = true) by lia. rewrite H.
    destruct IH as [-> ->]. auto.
Qed.

Lemma chunks_nonempty script : Forall (fun c => c <> []) (chunks script).
Proof.
  eapply Forall_impl; [|apply chunks_positive].
  intros c Hc ->. simpl in Hc. lia.
Qed.

(** An owner that only looks leaves the chunks in the queue, in order. *)
Lemma rx_after_without_callback q cs :
  rx_after owner_read false q cs = q ++ List.concat cs.
Proof.
  revert q. induction cs as [|c cs IH]; intros q; simpl.
  - now rewrite app_nil_r.
  - unfold rx_step. rewrite IH. now rewrite <- app_assoc.
Qed.

(** C8. One read-readiness invocation on a connected connection whose
    callbacks are set: [read_cb] is called once for each chunk received
    (every chunk is non-empty and goes to the inbound queue), [recv] is called
    once per chunk and once more, and that last call, the first to return
    zero or an error, ends the loop; when no byte was received the read watch
    is unregistered and exactly an Eof event is delivered, otherwise the
    watch stays and no Eof is delivered. *)
Theorem C8_on_read_notifies_per_chunk script w b q :
  conn w = Live b -> rx_queue w = Live q ->
  io_active (data_ev b) = true ->
  read_cb b = true -> event_cb b = true ->
  exists w' b' new_calls,
    run (on_read owner_read script) w = inr (tt, w') /\
    conn w' = Live b' /\
    calls w' = calls w ++ new_calls /\
    List.length (filter is_read_call new_calls)
    = List.length (chunks script) /\
    Forall (fun c => c <> []) (chunks script) /\
    rx_queue w' = Live (rx_after owner_read true q (chunks script)) /\
    syscalls w' = syscalls w ++ recv_log (sock b) script /\
    List.length (recv_log (sock b) script)
    = S (List.length (chunks script)) /\
    last_rc script <= 0 /\
    (forall pre r post,
        script = pre ++ r :: post ->
        Forall (fun x => 0 < recv_rc x) pre -> recv_rc r <= 0 ->
        chunks script = map recv_buf pre /\ last_rc script = recv_rc r) /\
    (if total_length (chunks script) <=? 0
     then io_active (data_ev b') = false /\ loop_io w' = false /\
          new_calls = [call_event_cb BEV_EOF]
     else b' = b /\ loop_io w' = loop_io w /\
          ~ In (call_event_cb BEV_EOF) new_calls).
Proof.
  intros Hb Hq Hact Hrcb Hecb.
  destruct (run_on_read script w b q Hb Hq)
    as (w' & b' & Hrun & Hb' & Hq' & _ & _ & _ & Hsys & Hcalls & Hio).
  rewrite Hrcb, Hecb, Hact in *. rewrite andb_true_r in *.
  exists w', b'. eexists. split; [exact Hrun|]. split; [exact Hb'|].
  split; [exact Hcalls|]. split.
  { rewrite filter_read_calls, read_calls_length; [reflexivity|].
    destruct (total_length (chunks script) <=? 0); repeat constructor. }
  split; [apply chunks_nonempty|]. split; [exact Hq'|].
  split; [exact Hsys|]. split.
  { unfold recv_log. rewrite length_app, length_map. simpl. lia. }
  split; [apply last_rc_nonpositive|]. split.
  { intros pre r post -> Hpre Hr.
    now apply loop_ends_at_first_nonpositive. }
  rewrite total_length_chunks in *.
  destruct (chunks script) as [|c cs] eqn:Hcs.
  - destruct Hio as [-> ->]. simpl. auto.
  - destruct Hio as [-> ->]. repeat split; auto.
    rewrite app_nil_r. intros Hin.
    pose proof (read_calls_are_read_calls true q (c :: cs)) as Hall.
    rewrite Forall_forall in Hall. apply Hall in Hin. discriminate.
Qed.

Lemma read_calls_end_with_chunk q cs :
  Forall2
    (fun call chunk =>
       exists before,
         call = call_read_cb (Z.of_nat (List.length (before ++ chunk)))
                             (before ++ chunk))
    (read_calls owner_read true q cs) cs.
Proof.
  revert q. induction cs as [|c cs IH]; intros q; simpl; constructor.
  - exists q. reflexivity.
  - apply IH.
Qed.

(** C10. Within one read-readiness invocation the calls of [read_cb] match
    the chunks received one to one and in order, and what each call finds
    through [bufferev_bytes_available] and [bufferev_peek] on entry is a
    queue that ends with its chunk: the chunk was appended before the call. *)
Theorem C10_chunk_queued_before_read_cb script w b q :
  conn w = Live b -> rx_queue w = Live q -> read_cb b = true ->
  exists w' new_calls,
    run (on_read owner_read script) w = inr (tt, w') /\
    calls w' = calls w ++ new_calls /\
    Forall2
      (fun call chunk =>
         exists before,
           call = call_read_cb (Z.of_nat (List.length (before ++ chunk)))
                               (before ++ chunk))
      (filter is_read_call new_calls) (chunks script).
Proof.
  intros Hb Hq Hrcb.
  destruct (run_on_read script w b q Hb Hq)
    as (w' & b' & Hrun & _ & _ & _ & _ & _ & _ & Hcalls & _).
  rewrite Hrcb in Hcalls.
  exists w'. eexists. split; [exact Hrun|]. split; [exact Hcalls|].
  rewrite filter_read_calls.
  - apply read_calls_end_with_chunk.
  - destruct ((total_length (chunks script) <=? 0) && event_cb b);
      repeat constructor.
Qed.

(** *** Connecting: the claims *)

Lemma filter_quiet l : Forall quiet l -> filter is_outcome l = [].
Proof.
  induction 1 as [|c l [Hc _] _ IH]; simpl; [reflexivity|].
  now rewrite Hc.
Qed.

Lemma verdict_is_outcome flags :
  verdict flags -> is_outcome (call_event_cb flags) = true.
Proof. intros [->|[->| ->]]; reflexivity. Qed.

Lemma connected_has_no_timeout flags rest :
  verdict flags -> Forall quiet rest ->
  In (call_event_cb BEV_CONNECTED) (call_event_cb flags :: rest) ->
  Forall (fun c => has_timeout c = false) (call_event_cb flags :: rest).
Proof.
  intros Hv Hrest Hin.
  assert (Hq : Forall (fun c => has_timeout c = false) rest).
  { eapply Forall_impl; [|exact Hrest]. intros c [_ H]. exact H. }
  destruct Hin as [Heq|Hin].
  - injection Heq as ->. constructor; [reflexivity|exact Hq].
  - rewrite Forall_forall in Hrest. destruct (Hrest _ Hin) as [H _].
    discriminate.
Qed.

(** C4. A connect attempt on a new connection whose event callback is set,
    followed by any reports of the reactor in any order. The attempt returns
    0 or -1. Once it has returned -1, or the reactor has reported the timer
    or writability, exactly one of the calls made is a verdict, and its flags
    are Connected, Error or Error|Timeout; before that none is. If Connected
    is among the calls, no call carries Timeout. *)
Theorem C4_one_verdict_per_attempt w b q src dst k es :
  new_connection w b -> event_cb b = true -> rx_queue w = Live q ->
  exists rc w1 w2 delivered,
    run (bufferev_connect_addrinfo src dst k) w = inr (rc, w1) /\
    run (deliver_all owner_read es) w1 = inr (tt, w2) /\
    calls w2 = calls w ++ delivered /\
    (rc = 0 \/ rc = -1) /\
    (if (rc =? -1) || existsb settles es
     then exists flags,
         filter is_outcome delivered = [call_event_cb flags] /\
         verdict flags
     else filter is_outcome delivered = []) /\
    (In (call_event_cb BEV_CONNECTED) delivered ->
     Forall (fun c => has_timeout c = false) delivered).
Proof.
  intros (Hb & Hc & Ha & Ht & Hio & Hlt) Hev Hq.
  assert (Hfailed : forall w1,
             run (bufferev_connect_addrinfo src dst k) w = inr (-1, w1) ->
             calls w1
             = calls w ++ (if event_cb b then [call_event_cb BEV_ERROR]
                           else []) ->
             loop_io w1 = loop_io w -> loop_timer w1 = loop_timer w ->
             exists rc w1 w2 delivered,
               run (bufferev_connect_addrinfo src dst k) w = inr (rc, w1) /\
               run (deliver_all owner_read es) w1 = inr (tt, w2) /\
               calls w2 = calls w ++ delivered /\
               (rc = 0 \/ rc = -1) /\
               (if (rc =? -1) || existsb settles es
                then exists flags,
                    filter is_outcome delivered = [call_event_cb flags] /\
                    verdict flags
                else filter is_outcome delivered = []) /\
               (In (call_event_cb BEV_CONNECTED) delivered ->
                Forall (fun c => has_timeout c = false) delivered)).
  { intros w1 Hrun Hcalls Hio1 Hlt1. rewrite Hev in Hcalls.
    exists (-1), w1, w1, [call_event_cb BEV_ERROR].
    split; [exact Hrun|]. split.
    { apply deliver_all_idle. split; congruence. }
    split; [exact Hcalls|]. split; [right; reflexivity|]. split.
    - change ((-1 =? -1) || existsb settles es) with true. cbv iota.
      exists BEV_ERROR. split; [reflexivity|]. right. left. reflexivity.
    - intros [H|[]]. discriminate. }
  assert (Hpending : connect_ret k = 0 \/ connect_errno k = EINPROGRESS ->
                     0 <= socket_ret k ->
             exists rc w1 w2 delivered,
               run (bufferev_connect_addrinfo src dst k) w = inr (rc, w1) /\
               run (deliver_all owner_read es) w1 = inr (tt, w2) /\
               calls w2 = calls w ++ delivered /\
               (rc = 0 \/ rc = -1) /\
               (if (rc =? -1) || existsb settles es
                then exists flags,
                    filter is_outcome delivered = [call_event_cb flags] /\
                    verdict flags
                else filter is_outcome delivered = []) /\
               (In (call_event_cb BEV_CONNECTED) delivered ->
                Forall (fun c => has_timeout c = false) delivered)).
  { intros Hrc Hfd.
    destruct (connect_pending w b src dst k Hb Hfd Hrc)
      as (w1 & b1 & Hrun & Hb1 & Hc1 & Hs1 & Hd1 & Ht1 & _ & He1 & Hio1
          & Hlt1 & Hcalls1 & Hrx1 & _).
    assert (Hw1 : connecting w1 (socket_ret k)).
    { exists b1. repeat split; auto; congruence. }
    destruct (deliver_all_connecting es w1 (socket_ret k) b1 q Hw1 Hb1)
      as (w2 & extra & Hrun2 & Hcalls2 & Hextra); [congruence..|].
    exists 0, w1, w2, extra.
    split; [exact Hrun|]. split; [exact Hrun2|].
    split; [congruence|]. split; [left; reflexivity|].
    change ((0 =? -1) || existsb settles es) with (existsb settles es).
    destruct (existsb settles es).
    - destruct Hextra as (flags & rest & -> & Hv & Hrest). split.
      + exists flags. split; [|exact Hv]. cbn [filter].
        rewrite (verdict_is_outcome flags Hv), (filter_quiet rest Hrest).
        reflexivity.
      + now apply connected_has_no_timeout.
    - subst extra. split; [reflexivity|]. intros []. }
  destruct (Z.lt_ge_cases (socket_ret k) 0) as [Hneg|Hfd].
  - destruct (connect_socket_fails w b src dst k Hb Hneg)
      as (w1 & Hrun & Hcalls & Hio1 & Hlt1 & _).
    now apply (Hfailed w1).
  - destruct (Z.eq_dec (connect_ret k) 0) as [Hrc|Hrc]; [now auto|].
    destruct (Z.eq_dec (connect_errno k) EINPROGRESS) as [He|He];
      [now auto|].
    destruct (connect_refused w b src dst k Hb Hfd Hrc He)
      as (w1 & Hrun & Hcalls & Hio1 & Hlt1 & _).
    now apply (Hfailed w1).
Qed.

(** C5. The connect timer fires while the attempt it belongs to is pending:
    the timer is disarmed, the socket closed (one [close], the descriptor
    open no more, and no descriptor open that was not open before the
    attempt), the watch unregistered, and exactly one event delivered, with
    flags Error|Timeout. *)
Theorem C5_timeout_releases_the_attempt w b src dst k w1 :
  conn w = Live b -> connected b = 0 -> event_cb b = true ->
  run (bufferev_connect_addrinfo src dst k) w = inr (0, w1) ->
  exists w2 b2,
    run (deliver owner_read timer_expired) w1 = inr (tt, w2) /\
    conn w2 = Live b2 /\
    timer_active (connect_timer b2) = false /\ loop_timer w2 = false /\
    sock b2 = -1 /\
    syscalls w2 = syscalls w1 ++ [sys_close (socket_ret k)] /\
    ~ In (socket_ret k) (open_fds w2) /\
    (forall fd, In fd (open_fds w2) -> In fd (open_fds w)) /\
    io_active (data_ev b2) = false /\ loop_io w2 = false /\
    calls w2
    = calls w ++ [call_event_cb (Z.lor BEV_ERROR BEV_TIMEOUT)].
Proof.
  intros Hb Hc Hev Hrun.
  assert (Hfd : 0 <= socket_ret k).
  { destruct (Z.lt_ge_cases (socket_ret k) 0) as [Hneg|Hfd]; [|exact Hfd].
    destruct (connect_socket_fails w b src dst k Hb Hneg) as (w' & H & _).
    rewrite H in Hrun. discriminate. }
  assert (Hrc : connect_ret k = 0 \/ connect_errno k = EINPROGRESS).
  { destruct (Z.eq_dec (connect_ret k) 0) as [Hrc|Hrc]; [now left|].
    destruct (Z.eq_dec (connect_errno k) EINPROGRESS) as [He|He];
      [now right|].
    destruct (connect_refused w b src dst k Hb Hfd Hrc He) as (w' & H & _).
    rewrite H in Hrun. discriminate. }
  destruct (connect_pending w b src dst k Hb Hfd Hrc)
    as (w1' & b1 & Hrun' & Hb1 & Hc1 & Hs1 & Hd1 & Ht1 & _ & He1 & Hio1
        & Hlt1 & Hcalls1 & _ & _ & Hfds1).
  rewrite Hrun in Hrun'. injection Hrun' as <-.
  assert (Hact : io_active (data_ev b1) = true) by now rewrite Hd1.
  destruct (run_on_connect_timeout w1 b1 Hb1) as
    (w2 & b2 & Hrun2 & Hb2 & Hs2 & Hio2 & Ht2 & Hlio2 & Hlt2 & Hsys2
     & Hfds2 & Hcalls2); [congruence | lia | assumption..|].
  exists w2, b2. unfold deliver. rewrite run_bind, run_get, Hlt1.
  split; [exact Hrun2|]. split; [exact Hb2|].
  rewrite Hs1 in *. rewrite He1, Hev in Hcalls2.
  repeat split; auto; try congruence.
  - rewrite Hfds2. apply remove_In.
  - intros fd Hin. rewrite Hfds2, Hfds1 in Hin.
    apply in_remove in Hin. destruct Hin as [[Heq|Hin] Hne];
      [congruence|exact Hin].
Qed.

(** *** Teardown: the claims *)

(** Teardown does not touch the connect timer: one that is armed stays
    registered with the reactor, and its expiry then reaches a released
    object. *)
Lemma teardown_leaves_timer w b rq tq :
  conn w = Live b -> rx_queue w = Live rq -> tx_queue w = Live tq ->
  loop_timer w = true ->
  exists w',
    run bufferev_free w = inr (tt, w') /\
    loop_timer w' = true /\
    run (deliver owner_read timer_expired) w' = inl use_after_free.
Proof.
  intros Hb Hrx Htx Hlt.
  destruct (run_bufferev_free w b rq tq Hb Hrx Htx)
    as (w' & Hrun & Hc' & _ & _ & _ & Hlt' & _).
  exists w'. split; [exact Hrun|]. split; [congruence|].
  unfold deliver. rewrite run_bind, run_get, Hlt', Hlt.
  unfold on_connect_timeout, ev_timer_stop, rd, deref.
  rewrite !run_bind, run_get, Hc'. reflexivity.
Qed.

(** C2, as the code has it. One teardown of a live connection unregisters
    the I/O watch, releases each queue and the object, and closes the socket
    when [sock] is not negative, with one [close]; it calls nothing back. It
    is not idempotent: a second teardown of the same connection reads the
    released object. *)
Theorem C2_teardown_once w b rq tq :
  conn w = Live b -> rx_queue w = Live rq -> tx_queue w = Live tq ->
  io_active (data_ev b) = loop_io w ->
  exists w',
    run bufferev_free w = inr (tt, w') /\
    loop_io w' = false /\
    rx_queue w' = Freed /\ tx_queue w' = Freed /\ conn w' = Freed /\
    syscalls w'
    = syscalls w ++ (if 0 <=? sock b then [sys_close (sock b)] else []) /\
    open_fds w'
    = (if 0 <=? sock b
       then remove Z.eq_dec (sock b) (open_fds w) else open_fds w) /\
    calls w' = calls w /\
    run bufferev_free w' = inl use_after_free.
Proof.
  intros Hb Hrx Htx Hact.
  destruct (run_bufferev_free w b rq tq Hb Hrx Htx)
    as (w' & Hrun & Hc' & Hrx' & Htx' & Hio' & _ & Hsys' & Hfds' & Hcalls').
  exists w'. repeat split; auto.
  - rewrite Hio'. destruct (io_active (data_ev b)); congruence.
  - now apply run_bufferev_free_released.
Qed.

(** Teardown after the timeout path closes nothing again: [close_sock] left
    [sock] at -1. *)
Lemma teardown_after_timeout_closes_nothing w b rq tq :
  conn w = Live b -> rx_queue w = Live rq -> tx_queue w = Live tq ->
  sock b = -1 ->
  exists w',
    run bufferev_free w = inr (tt, w') /\
    syscalls w' = syscalls w /\ open_fds w' = open_fds w.
Proof.
  intros Hb Hrx Htx Hs.
  destruct (run_bufferev_free w b rq tq Hb Hrx Htx)
    as (w' & Hrun & _ & _ & _ & _ & _ & Hsys & Hfds & _).
  rewrite Hs in *. simpl in *. rewrite app_nil_r in Hsys. eauto.
Qed.

(** Adopting a connected descriptor: the Connected event is delivered
    before the call returns and no timer is armed. *)
Lemma adopt_reports_connected w b fd :
  conn w = Live b -> event_cb b = true -> io_active (data_ev b) = false ->
  exists w' b',
    run (bufferev_connect_tcp_sock fd) w = inr (0, w') /\
    conn w' = Live b' /\
    sock b' = fd /\ proto b' = network_proto_tcp /\
    data_ev b' = mk_ev_io true h_on_read fd EV_READ /\
    loop_io w' = true /\ loop_timer w' = loop_timer w /\
    calls w' = calls w ++ [call_event_cb BEV_CONNECTED].
Proof.
  intros Hb Hev Ha. unfold bufferev_connect_tcp_sock.
  exec. simpl. rewrite Hev. exec.
  do 2 eexists. split; [reflexivity|]. simpl. repeat split; auto.
Qed.

(** *** Writing: the claims *)

(** C6. [bufferev_write] on a TCP connection, the kernel never returning 0
    for a request that is not empty. When the call returns, it returns the
    number of bytes the kernel accepted; these are the first bytes of the
    payload, in order; and either they are all of the payload or the last
    [send] failed with an [errno] other than [EAGAIN] and [EINTR]. It does
    return once the kernel fails in that way or has answered with room more
    often than the payload has bytes; [EAGAIN] and [EINTR] alone never end
    it. *)
Theorem C6_tcp_write_all_or_hard_error w b buf answers :
  conn w = Live b -> proto b = network_proto_tcp ->
  Forall (fun a => a <> send_ok 0) answers ->
  exists res sends,
    run (bufferev_write buf answers) w
    = inr (res, set_syscalls (syscalls w ++ sends) w) /\
    (forall r, res = Some r ->
       0 <= r <= Z.of_nat (List.length buf) /\
       wire sends = firstn (Z.to_nat r) buf /\
       (r = Z.of_nat (List.length buf) \/
        exists pre e post,
          answers = pre ++ send_fail e :: post /\
          hard_error e = true /\
          List.length sends = S (List.length pre))) /\
    (existsb is_hard_failure answers = true \/
     Z.of_nat (List.length buf)
     < Z.of_nat (List.length (filter is_send_ok answers)) ->
     res <> None).
Proof.
  intros Hb Hp Hok.
  assert (Hoff : 0 <= 0 <= Z.of_nat (List.length buf)) by lia.
  destruct (run_tcp_write_loop answers buf 0 0 0 w b Hb Hoff Hok)
    as (res & sends & Hrun & Hres).
  assert (Hw : run (bufferev_write buf answers) w
               = run (tcp_write_loop answers buf 0 0 0) w).
  { unfold bufferev_write. rewrite run_bind, (run_rd proto w b Hb), Hp.
    reflexivity. }
  exists res, sends. split; [now rewrite Hw|]. split.
  - intros r Hr. destruct (Hres r Hr) as (n & Hn1 & Hn2 & Hn3 & Hn4).
    subst r. rewrite Z.add_0_l, Nat2Z.id. split; [lia|].
    split; [exact Hn3|]. destruct Hn4 as [H|H]; [left; lia|right; exact H].
  - intros Hend Hnone.
    destruct (tcp_write_loop_returns answers buf 0 0 0 w b Hb Hoff Hok)
      as (r & w' & Hrun'); [rewrite Z.sub_0_r; exact Hend|].
    rewrite Hrun in Hrun'. congruence.
Qed.

(** C7. [bufferev_write] on a TLS connection returns the length of the
    payload and changes one thing only: the outbound queue has the payload
    appended. No system call is made; the object, the inbound queue, the
    registrations and the calls made are as before. *)
Theorem C7_tls_write_enqueues w b q buf answers :
  conn w = Live b -> proto b = network_proto_tls -> tx_queue w = Live q ->
  exists w',
    run (bufferev_write buf answers) w
    = inr (Some (Z.of_nat (List.length buf)), w') /\
    w' = set_tx_queue (Live (q ++ buf)) w /\
    List.length (q ++ buf) = (List.length q + List.length buf)%nat /\
    syscalls w' = syscalls w /\
    conn w' = conn w /\ rx_queue w' = rx_queue w /\
    open_fds w' = open_fds w /\
    loop_io w' = loop_io w /\ loop_timer w' = loop_timer w /\
    calls w' = calls w.
Proof.
  intros Hb Hp Hq. eexists. split.
  - unfold bufferev_write. rewrite run_bind, (run_rd proto w b Hb), Hp.
    cbv beta iota.
    rewrite run_bind, (run_buffer_queue_add TX buf w q Hq). reflexivity.
  - simpl. rewrite length_app. repeat split; reflexivity.
Qed.

End WithOwner.

(** *** The sample worlds *)

Lemma sample_new_is_new :
  exists b,
    new_connection sample_new b /\ event_cb b = true /\ read_cb b = true /\
    sock b = 0 /\
    rx_queue sample_new = Live [] /\ tx_queue sample_new = Live [].
Proof. eexists. repeat split; reflexivity. Qed.

Lemma sample_connecting_is_connecting : connecting sample_connecting 3.
Proof. eexists. repeat split; try reflexivity. lia. Qed.

Lemma sample_connected_is_established : established sample_connected.
Proof. do 2 eexists. repeat split; reflexivity. Qed.

(** *** The claims on the sample worlds *)

(** C8 on the sample script, the owner reading all it is shown: three
    calls of [read_cb]. *)
Lemma C8_on_read_notifies_per_chunk_witness :
  exists w' b' new_calls,
    run (on_read reads_all sample_script) sample_connected = inr (tt, w') /\
    conn w' = Live b' /\
    calls w' = calls sample_connected ++ new_calls /\
    List.length (filter is_read_call new_calls) = 3%nat.
Proof.
  destruct (C8_on_read_notifies_per_chunk reads_all sample_script
              sample_connected
              (mk_bufferev (mk_ev_timer false) network_proto_tcp 3 1
                           (mk_ev_io true h_on_read 3 EV_READ) true true true)
              [] eq_refl eq_refl eq_refl eq_refl eq_refl)
    as (w' & b' & new_calls & H1 & H2 & H3 & H4 & _).
  exists w', b', new_calls. auto.
Defined.

(** C10 on the sample script, the owner only looking. *)
Lemma C10_chunk_queued_before_read_cb_witness :
  exists w' new_calls,
    run (on_read reads_nothing sample_script) sample_connected
    = inr (tt, w') /\
    calls w' = calls sample_connected ++ new_calls /\
    Forall2
      (fun call chunk =>
         exists before,
           call = call_read_cb (Z.of_nat (List.length (before ++ chunk)))
                               (before ++ chunk))
      (filter is_read_call new_calls) (chunks sample_script).
Proof.
  exact (C10_chunk_queued_before_read_cb reads_nothing sample_script
           sample_connected
           (mk_bufferev (mk_ev_timer false) network_proto_tcp 3 1
                        (mk_ev_io true h_on_read 3 EV_READ) true true true)
           [] eq_refl eq_refl eq_refl).
Defined.

(** C4 on the sample attempt, the reactor reporting readability, the timer
    and writability in turn. *)
Lemma C4_one_verdict_per_attempt_witness :
  exists rc w1 w2 delivered,
    run (bufferev_connect_addrinfo None sample_dst sample_pending) sample_new
    = inr (rc, w1) /\
    run (deliver_all reads_all
           [io_ready EV_READ 0 sample_script; timer_expired;
            io_ready EV_WRITE 0 []]) w1 = inr (tt, w2) /\
    calls w2 = calls sample_new ++ delivered /\
    (rc = 0 \/ rc = -1).
Proof.
  destruct (C4_one_verdict_per_attempt reads_all sample_new
              (set_cbs true true true zeroed) [] None sample_dst
              sample_pending
              [io_ready EV_READ 0 sample_script; timer_expired;
               io_ready EV_WRITE 0 []])
    as (rc & w1 & w2 & delivered & H1 & H2 & H3 & H4 & _).
  - repeat split; reflexivity.
  - reflexivity.
  - reflexivity.
  - exists rc, w1, w2, delivered. auto.
Defined.

(** C5 on the sample attempt. *)
Lemma C5_timeout_releases_the_attempt_witness :
  exists w2 b2,
    run (deliver reads_all timer_expired) sample_connecting = inr (tt, w2) /\
    conn w2 = Live b2 /\
    sock b2 = -1 /\
    calls w2 = [call_event_cb (Z.lor BEV_ERROR BEV_TIMEOUT)].
Proof.
  destruct (C5_timeout_releases_the_attempt reads_all sample_new
              (set_cbs true true true zeroed) None sample_dst sample_pending
              sample_connecting eq_refl eq_refl eq_refl eq_refl)
    as (w2 & b2 & H1 & H2 & _ & _ & H3 & _ & _ & _ & _ & _ & H4).
  exists w2, b2. auto.
Defined.

(** C2 on the sample connection once it is connected. *)
Lemma C2_teardown_once_witness :
  exists w',
    run bufferev_free sample_connected = inr (tt, w') /\
    conn w' = Freed /\
    run bufferev_free w' = inl use_after_free.
Proof.
  destruct (C2_teardown_once sample_connected
              (mk_bufferev (mk_ev_timer false) network_proto_tcp 3 1
                           (mk_ev_io true h_on_read 3 EV_READ) true true true)
              [] [] eq_refl eq_refl eq_refl eq_refl)
    as (w' & H1 & _ & _ & _ & H2 & _ & _ & _ & H3).
  exists w'. auto.
Defined.

(** C2, against the claim as stated. Teardown of a connection whose connect
    attempt is pending leaves the connect timer registered with the reactor;
    and a second teardown of the same connection is no no-op: it reads the
    object the first one released, through which it would release both
    queues and close the socket again. *)
Lemma C2_teardown_not_idempotent :
  exists w1,
    run bufferev_free sample_connecting = inr (tt, w1) /\
    loop_timer sample_connecting = true /\ loop_timer w1 = true /\
    rx_queue w1 = Freed /\ tx_queue w1 = Freed /\ conn w1 = Freed /\
    run bufferev_free w1 = inl use_after_free /\
    run (bind bufferev_free (fun _ => bufferev_free)) sample_connecting
    = inl use_after_free.
Proof. eexists. repeat split; reflexivity. Qed.

(** C6 on a payload of five bytes and the sample kernel. *)
Lemma C6_tcp_write_all_or_hard_error_witness :
  exists res sends,
    run (bufferev_write [x70; x69; x6e; x67; x0a] sample_sends)
        sample_connected
    = inr (res, set_syscalls (syscalls sample_connected ++ sends)
                  sample_connected) /\
    res <> None.
Proof.
  destruct (C6_tcp_write_all_or_hard_error sample_connected
              (mk_bufferev (mk_ev_timer false) network_proto_tcp 3 1
                           (mk_ev_io true h_on_read 3 EV_READ) true true true)
              [x70; x69; x6e; x67; x0a] sample_sends eq_refl eq_refl)
    as (res & sends & H1 & _ & H2).
  - repeat constructor; discriminate.
  - exists res, sends. split; [exact H1|]. apply H2. left. reflexivity.
Defined.

(** C7 on a payload of 100 bytes: the call returns 100. *)
Lemma C7_tls_write_enqueues_witness :
  exists w',
    run (bufferev_write (repeat x00 100) []) sample_tls
    = inr (Some 100, w') /\
    w' = set_tx_queue (Live ([x16] ++ repeat x00 100)) sample_tls.
Proof.
  destruct (C7_tls_write_enqueues sample_tls
              (set_proto network_proto_tls (set_cbs true true true zeroed))
              [x16] (repeat x00 100) [] eq_refl eq_refl eq_refl)
    as (w' & H1 & H2 & _).
  exists w'. split; [exact H1|exact H2].
Defined.

(** What the sample write puts on the wire. *)
Lemma sample_write_runs :
  exists w',
    run (bufferev_write [x70; x69; x6e; x67; x0a] sample_sends)
        sample_connected = inr (Some 5, w') /\
    wire (syscalls w') = [x70; x69; x6e; x67; x0a].
Proof. eexists. split; reflexivity. Qed.

(** C3. The claim is that a descriptor is open exactly while the connection
    is connecting or connected. The code leaves one outside these states in
    three places. A new connection has [sock] 0, which [close_sock] takes
    for an open descriptor, so that tearing it down closes descriptor 0 of
    the process. A connect attempt that fails asynchronously reports Error
    and leaves nothing registered, with the descriptor still open. The end
    of the stream reports Eof and unregisters the watch, with the descriptor
    still open. *)
Theorem C3_descriptor_open_outside_connection :
  (exists b w',
      conn sample_new = Live b /\ new_connection sample_new b /\
      sock b = 0 /\ (0 <=? sock b) = true /\
      run bufferev_free sample_new = inr (tt, w') /\
      syscalls w' = [sys_close 0] /\ open_fds w' = [1; 2]) /\
  (exists w2 b2,
      run (deliver reads_nothing (io_ready EV_WRITE 111 [])) sample_connecting
      = inr (tt, w2) /\
      calls w2 = [call_event_cb BEV_ERROR] /\ idle w2 /\
      conn w2 = Live b2 /\ sock b2 = 3 /\ In 3 (open_fds w2)) /\
  (exists w2 b2,
      run (deliver reads_nothing (io_ready EV_READ 0 [recv_ok []]))
          sample_connected
      = inr (tt, w2) /\
      calls w2 = [call_event_cb BEV_CONNECTED; call_event_cb BEV_EOF] /\
      idle w2 /\
      conn w2 = Live b2 /\ sock b2 = 3 /\ In 3 (open_fds w2)).
Proof.
  split; [|split].
  - do 2 eexists. repeat split; reflexivity.
  - do 2 eexists. repeat split; try reflexivity. simpl. auto.
  - do 2 eexists. repeat split; try reflexivity. simpl. auto.
Qed.

(** C9. [parse_sockaddr] takes the port and the address from the bytes of
    its pointer parameter, not from the [sockaddr] the pointer refers to:
    for an IPv4 socket the result is the same whatever endpoint the kernel
    stored, and for the endpoint 127.0.0.1:8080 queried with the local
    buffer at 0x7ffd5e3a9c40 the port returned is 14942 and the host is the
    presentation form of 253.127.0.0. A failed query is reported as [NULL],
    as claimed. *)
Theorem C9_endpoint_read_from_pointer_bytes
        (inet_ntop : Z -> list byte -> string)
        (stack_addr : Z) (frame : list byte)
        (port0 port port' : Z) (ip ip' : list byte) :
  parse_sockaddr inet_ntop stack_addr (sockaddr_in_bytes port ip) frame port0
  = parse_sockaddr inet_ntop stack_addr (sockaddr_in_bytes port' ip')
                   frame port0 /\
  run (bufferev_get_local_addr inet_ntop (Some sample_endpoint)
         sample_stack_addr frame port0) sample_connected
  = inr (Some (inet_ntop AF_INET [xfd; x7f; x00; x00], 14942),
         set_syscalls (syscalls sample_connected ++ [sys_getsockname 3 0])
                      sample_connected) /\
  run (bufferev_get_peer_addr inet_ntop (Some sample_endpoint)
         sample_stack_addr frame port0) sample_connected
  = inr (Some (inet_ntop AF_INET [xfd; x7f; x00; x00], 14942),
         set_syscalls (syscalls sample_connected ++ [sys_getpeername 3 0])
                      sample_connected) /\
  run (bufferev_get_local_addr inet_ntop None stack_addr frame port0)
      sample_connected
  = inr (None,
         set_syscalls (syscalls sample_connected ++ [sys_getsockname 3 (-1)])
                      sample_connected) /\
  run (bufferev_get_peer_addr inet_ntop None stack_addr frame port0)
      sample_connected
  = inr (None,
         set_syscalls (syscalls sample_connected ++ [sys_getpeername 3 (-1)])
                      sample_connected).
Proof. repeat split; reflexivity. Qed.

End ConnFacts.

(* ===================================================================== *)
(** ** Properties of the interface as a whole *)
(* ===================================================================== *)

Module ApiFacts.
Import Registry Conn Api ConnFacts.
#[local] Existing Instance Monad_stateT.
Local Open Scope monad_scope.

(** *** The registry *)

Lemma tolower_code_zero c : char_code (tolower c) = 0 -> c = zero.
Proof.
  destruct c as [[] [] [] [] [] [] [] []]; cbv; intros H;
    first [reflexivity | discriminate H].
Qed.

Lemma char_code_eq c d : char_code c = char_code d -> c = d.
Proof.
  unfold char_code. intros H. apply Nat2Z.inj in H.
  rewrite <- (ascii_nat_embedding c), <- (ascii_nat_embedding d).
  now rewrite H.
Qed.

Lemma nul_free_cons c r :
  nul_free (String c r) = true -> c <> zero /\ nul_free r = true.
Proof.
  cbn [nul_free]. intros H. apply andb_true_iff in H. destruct H as [Hc Hr].
  split; [|exact Hr]. intros ->. discriminate Hc.
Qed.

(** On C strings [strcasecmp] is 0 only when the lowered strings agree. *)
Lemma strcasecmp_zero s :
  forall t,
    nul_free s = true -> nul_free t = true ->
    strcasecmp s t = 0 -> lower s = lower t.
Proof.
  induction s as [|c r IH]; intros [|d u] Hs Ht H; cbn [strcasecmp] in H.
  - reflexivity.
  - apply nul_free_cons in Ht. destruct Ht as [Hd _].
    exfalso. apply Hd, tolower_code_zero. lia.
  - apply nul_free_cons in Hs. destruct Hs as [Hc _].
    exfalso. apply Hc, tolower_code_zero. exact H.
  - apply nul_free_cons in Hs. apply nul_free_cons in Ht.
    destruct Hs as [_ Hs], Ht as [_ Ht].
    destruct (char_code (tolower c) - char_code (tolower d) =? 0) eqn:E.
    + apply Z.eqb_eq in E. cbn [lower]. f_equal.
      * apply char_code_eq. lia.
      * now apply IH.
    + apply Z.eqb_neq in E. contradiction.
Qed.

(** X1. What [network_str_to_proto] makes of a C string: UDP when the
    string, lowered, is "udp", and TCP for everything else - the names "tcp"
    and "tls" in any letter case, the empty string, and any other string. *)
Theorem X1_str_to_proto_characterised s :
  nul_free s = true ->
  network_str_to_proto s
  = if String.eqb (lower s) "udp"
    then network_proto_udp else network_proto_tcp.
Proof.
  intros Hs. unfold network_str_to_proto, proto_list.
  cbn [str_to_proto_from].
  destruct (strcasecmp "udp" s =? 0) eqn:E.
  - apply Z.eqb_eq in E.
    apply (strcasecmp_zero "udp" s eq_refl Hs) in E.
    rewrite <- E. reflexivity.
  - destruct (String.eqb_spec (lower s) "udp") as [Hl|Hl].
    + apply Z.eqb_neq in E. exfalso. apply E.
      apply RegistryFacts.strcasecmp_lower. now rewrite Hl.
    + destruct (strcasecmp "tcp" s =? 0), (strcasecmp "tls" s =? 0);
        reflexivity.
Qed.

(** X2. [network_str_to_proto] does not tell letter cases apart: two names
    that agree once lowered are read as the same protocol. *)
Theorem X2_str_to_proto_ignores_case s t :
  lower s = lower t ->
  network_str_to_proto s = network_str_to_proto t.
Proof. intros H. symmetry. now apply RegistryFacts.str_to_proto_lower. Qed.

(** *** Operations that keep a property *)

Section Keeping.

Variable P : world -> Prop.
Hypothesis P_alive : forall w, P w -> alive w.

Lemma keeps_ret {A : Type} (a : A) : keeps P (ret a).
Proof. intros w Hw. exists a, w. split; [apply run_ret|exact Hw]. Qed.

Lemma keeps_bind {A B : Type} (c : bev A) (k : A -> bev B) :
  keeps P c -> (forall a, keeps P (k a)) -> keeps P (bind c k).
Proof.
  intros Hc Hk w Hw. destruct (Hc w Hw) as (a & w1 & Hrun & Hw1).
  destruct (Hk a w1 Hw1) as (b & w2 & Hrun2 & Hw2).
  exists b, w2. rewrite run_bind, Hrun. auto.
Qed.

Lemma keeps_get_bind {B : Type} (k : world -> bev B) :
  (forall w0, keeps P (k w0)) -> keeps P (bind get k).
Proof.
  intros Hk w Hw. rewrite run_bind, run_get. exact (Hk w w Hw).
Qed.

(** What follows a read of a field may rely on the object the field was
    read from being one [P] allows. *)
Lemma keeps_rd_bind {A B : Type} (field : bufferev -> A) (k : A -> bev B) :
  (forall b, (exists w, P w /\ conn w = Live b) -> keeps P (k (field b))) ->
  keeps P (bind (rd field) k).
Proof.
  intros Hk w Hw. destruct (P_alive w Hw) as (b & rq & tq & Hb & _).
  rewrite run_bind, (run_rd field w b Hb). apply (Hk b); eauto.
Qed.

Lemma keeps_rd {A : Type} (field : bufferev -> A) : keeps P (rd field).
Proof.
  intros w Hw. destruct (P_alive w Hw) as (b & rq & tq & Hb & _).
  rewrite (run_rd field w b Hb). eauto.
Qed.

Lemma keeps_wr (assign : bufferev -> bufferev) :
  (forall w b, P w -> conn w = Live b -> P (set_conn (Live (assign b)) w)) ->
  keeps P (wr assign).
Proof.
  intros H w Hw. destruct (P_alive w Hw) as (b & rq & tq & Hb & _).
  rewrite (run_wr assign w b Hb). eauto.
Qed.

Lemma keeps_update (f : world -> world) :
  (forall w, P w -> P (f w)) -> keeps P (update f).
Proof. intros H w Hw. rewrite run_update. eauto. Qed.

Lemma keeps_queue_bytes_bind {B : Type} (q : which_queue)
      (k : list byte -> bev B) :
  (forall l, (exists w, P w /\ queue_cell q w = Live l) -> keeps P (k l)) ->
  keeps P (bind (queue_bytes q) k).
Proof.
  intros Hk w Hw. destruct (P_alive w Hw) as (b & rq & tq & _ & Hrx & Htx).
  destruct q.
  - rewrite run_bind, (run_queue_bytes RX w rq Hrx). apply Hk; eauto.
  - rewrite run_bind, (run_queue_bytes TX w tq Htx). apply Hk; eauto.
Qed.

Lemma keeps_if {A : Type} (c : bool) (x y : bev A) :
  (c = true -> keeps P x) -> (c = false -> keeps P y) ->
  keeps P (if c then x else y).
Proof. destruct c; auto. Qed.

End Keeping.

Ltac unfold_ops :=
  unfold perform, bufferev_setcbs, bufferev_rx_queue,
    bufferev_bytes_available, bufferev_peek, bufferev_read, bufferev_write,
    bufferev_connect_addrinfo, bufferev_connect_tcp_sock,
    bufferev_get_local_addr, bufferev_get_peer_addr,
    deliver, on_read, on_connect, on_connect_timeout, close_sock, close,
    socket, invoke_read_cb, invoke_event_cb,
    ev_io_init, ev_io_start, ev_io_stop,
    ev_timer_init, ev_timer_start, ev_timer_stop,
    buffer_queue_add, buffer_queue_len, buffer_queue_copy,
    buffer_queue_remove, syscall_log, callback_log.

(** The structure of an operation is followed down to its assignments;
    [side] settles what an assignment has to respect. *)
Ltac keep1 HL side :=
  lazymatch goal with
  | |- keeps _ (ret _) => apply keeps_ret
  | |- keeps _ (rd _) => apply (keeps_rd _ HL)
  | |- keeps _ (wr _) => apply (keeps_wr _ HL); try side
  | |- keeps _ (update _) => apply keeps_update; try side
  | |- keeps _ (bind (rd _) _) => apply (keeps_rd_bind _ HL); intros ? ?
  | |- keeps _ (bind (queue_bytes _) _) =>
      apply (keeps_queue_bytes_bind _ HL); intros ? ?
  | |- keeps _ (bind get _) => apply keeps_get_bind; intros ?
  | |- keeps _ (bind _ _) => apply keeps_bind; [ | intros ? ]
  | |- keeps _ (if ?c then _ else _) => destruct c eqn:?
  | |- keeps _ (match ?x with _ => _ end) => destruct x eqn:?
  | |- keeps _ _ =>
      first
        [ match goal with
          | H : forall _, keeps _ _ |- _ => apply H
          | H : forall _ _, keeps _ _ |- _ => apply H
          | H : forall _ _ _, keeps _ _ |- _ => apply H
          | H : forall _ _ _ _, keeps _ _ |- _ => apply H
          | H : forall _ _ _ _ _, keeps _ _ |- _ => apply H
          end
        | progress unfold_ops ]
  end.


(** *** Nothing faults, nothing is released *)



Section Alive.
Variable owner_read : list byte -> nat.
Variable inet_ntop : Z -> list byte -> string.




End Alive.


(** *** The protocol is never TLS *)

Lemma plain_alive w : plain w -> alive w.
Proof. intros (b & rq & Hb & Hrx & Htx & _). exists b, rq, []. auto. Qed.

Ltac plain_absurd :=
  match goal with
  | H : exists w, plain w /\ conn w = Live ?b,
    E : proto ?b = network_proto_tls |- _ =>
      exfalso;
      let w := fresh in let b' := fresh in let Hb := fresh in
      let Hb' := fresh in let Hp := fresh in
      destruct H as (w & (b' & ? & Hb' & ? & ? & Hp) & Hb);
      rewrite Hb in Hb'; injection Hb' as <-; exact (Hp E)
  end.

Ltac plain_side :=
  intros; match goal with H : plain _ |- _ =>
    destruct H as (?b & ?rq & ? & ? & ? & ?) end;
  repeat match goal with q : which_queue |- _ => destruct q end;
  simpl in *; unfold plain; simpl;
  repeat match goal with
         | H : Live _ = Live _ |- _ => injection H as <-
         end;
  try (do 2 eexists; repeat split; eauto; simpl;
       repeat match goal with
              | |- context [if ?c then _ else _] => destruct c
              end; congruence).

Ltac keep_plain :=
  repeat first [ plain_absurd | keep1 plain_alive plain_side ].

Section Plain.
Variable owner_read : list byte -> nat.
Variable inet_ntop : Z -> list byte -> string.

Lemma tcp_write_loop_plain answers :
  forall buf errno off sent,
    keeps plain (tcp_write_loop answers buf errno off sent).
Proof.
  induction answers as [|a answers IH]; intros; cbn [tcp_write_loop];
    unfold_ops; keep_plain.
Qed.

Lemma on_read_loop_plain script :
  forall acc, keeps plain (on_read_loop owner_read script acc).
Proof.
  induction script as [|r script IH]; intros; cbn [on_read_loop];
    unfold_ops; keep_plain.
Qed.

Lemma perform_plain c : keeps plain (perform owner_read inet_ntop c).
Proof.
  pose proof tcp_write_loop_plain as Hw.
  pose proof on_read_loop_plain as Hr.
  destruct c; unfold_ops; keep_plain.
Qed.

End Plain.

(** X14. No function of the file puts a connection into TLS mode. From
    construction on, through every sequence of calls of the interface and
    reports of the reactor, the protocol is UDP or TCP and the outbound queue
    stays empty: the [network_proto_tls] case of [bufferev_write] is never
    reached. *)
Theorem X14_protocol_never_tls owner_read inet_ntop fds cs :
  exists w0 w',
    run (bufferev_new true true true) (empty_world fds) = inr (true, w0) /\
    run (perform_all owner_read inet_ntop cs) w0 = inr (tt, w') /\
    exists b,
      conn w' = Live b /\ proto b <> network_proto_tls /\
      tx_queue w' = Live [].
Proof.
  assert (Hall : forall cs w, plain w ->
             exists w', run (perform_all owner_read inet_ntop cs) w
                        = inr (tt, w') /\ plain w').
  { clear cs. induction cs as [|c cs IH]; intros w Hw.
    - exists w. split; [reflexivity|exact Hw].
    - destruct (perform_plain owner_read inet_ntop c w Hw)
        as ([] & w1 & Hrun & Hw1).
      destruct (IH w1 Hw1) as (w2 & Hrun2 & Hw2).
      exists w2. cbn [perform_all]. rewrite run_bind, Hrun. auto. }
  eexists. 
  destruct (Hall cs (mk_world (Live zeroed) (Live []) (Live []) false false
                              fds [] []))
    as (w' & Hrun & (b & rq & Hb & _ & Htx & Hp)).
  { exists zeroed, []. repeat split; try reflexivity. discriminate. }
  exists w'. split; [reflexivity|]. split; [exact Hrun|]. eauto.
Qed.

(** *** Without callbacks nothing is called *)

Lemma silent_alive cs w : silent cs w -> alive w.
Proof.
  intros (b & rq & tq & Hb & Hrx & Htx & _). exists b, rq, tq. auto.
Qed.

Ltac silent_absurd :=
  match goal with
  | H : exists w, silent _ w /\ conn w = Live ?b,
    E : read_cb ?b = true |- _ =>
      exfalso;
      let w := fresh in let b' := fresh in let Hb := fresh in
      let Hb' := fresh in
      destruct H as (w & (b' & ? & ? & Hb' & ? & ? & ? & ? & ?) & Hb);
      rewrite Hb in Hb'; injection Hb' as <-; congruence
  | H : exists w, silent _ w /\ conn w = Live ?b,
    E : event_cb ?b = true |- _ =>
      exfalso;
      let w := fresh in let b' := fresh in let Hb := fresh in
      let Hb' := fresh in
      destruct H as (w & (b' & ? & ? & Hb' & ? & ? & ? & ? & ?) & Hb);
      rewrite Hb in Hb'; injection Hb' as <-; congruence
  end.

Ltac silent_side :=
  intros; match goal with H : silent _ _ |- _ =>
    destruct H as (?b & ?rq & ?tq & ? & ? & ? & ? & ? & ?) end;
  repeat match goal with q : which_queue |- _ => destruct q end;
  simpl in *; unfold silent; simpl;
  repeat match goal with
         | H : Live _ = Live _ |- _ => injection H as <-
         end;
  try (do 3 eexists; repeat split; eauto; simpl; congruence).

Section Silent.
Variable owner_read : list byte -> nat.
Variable inet_ntop : Z -> list byte -> string.
Variable made : list callback_call.

Ltac keep_silent :=
  repeat first [ silent_absurd | keep1 (silent_alive made) silent_side ].

Lemma tcp_write_loop_silent answers :
  forall buf errno off sent,
    keeps (silent made) (tcp_write_loop answers buf errno off sent).
Proof.
  induction answers as [|a answers IH]; intros; cbn [tcp_write_loop];
    unfold_ops; keep_silent.
Qed.

Lemma on_read_loop_silent script :
  forall acc, keeps (silent made) (on_read_loop owner_read script acc).
Proof.
  induction script as [|r script IH]; intros; cbn [on_read_loop];
    unfold_ops; keep_silent.
Qed.

Lemma perform_silent c :
  is_setcbs c = false ->
  keeps (silent made) (perform owner_read inet_ntop c).
Proof.
  pose proof tcp_write_loop_silent as Hw.
  pose proof on_read_loop_silent as Hr.
  destruct c; try discriminate; intros _; unfold_ops; keep_silent.
Qed.

End Silent.

Lemma perform_all_silent owner_read inet_ntop made cs :
  forallb (fun c => negb (is_setcbs c)) cs = true ->
  keeps (silent made) (perform_all owner_read inet_ntop cs).
Proof.
  induction cs as [|c cs IH]; intros Hcs w Hw.
  - exists tt, w. split; [reflexivity|exact Hw].
  - cbn [forallb] in Hcs. apply andb_true_iff in Hcs.
    destruct Hcs as [Hc Hcs]. apply negb_true_iff in Hc.
    destruct (perform_silent owner_read inet_ntop made c Hc w Hw)
      as ([] & w1 & Hrun & Hw1).
    destruct (IH Hcs w1 Hw1) as (a & w2 & Hrun2 & Hw2).
    exists a, w2. cbn [perform_all]. rewrite run_bind, Hrun. auto.
Qed.

(** X15. The callbacks are optional. While [read_cb] and [event_cb] are
    [NULL], no sequence of calls of the interface (other than
    [bufferev_setcbs]) and of reports of the reactor calls anything back,
    and none faults: data received is queued, connect attempts are settled
    and timed out, without a notification. *)
Theorem X15_no_callback_no_call owner_read inet_ntop cs w b rq tq :
  conn w = Live b -> rx_queue w = Live rq -> tx_queue w = Live tq ->
  read_cb b = false -> event_cb b = false ->
  forallb (fun c => negb (is_setcbs c)) cs = true ->
  exists w',
    run (perform_all owner_read inet_ntop cs) w = inr (tt, w') /\
    calls w' = calls w.
Proof.
  intros Hb Hrx Htx Hr He Hcs.
  assert (Hw : silent (calls w) w) by (exists b, rq, tq; auto 10).
  destruct (perform_all_silent owner_read inet_ntop (calls w) cs Hcs w Hw)
    as ([] & w' & Hrun & (? & ? & ? & ? & ? & ? & ? & ? & Hcalls)).
  exists w'. auto.
Qed.

(** *** The readiness handlers leave the descriptors alone *)

Lemma descriptors_alive fds closes w :
  descriptors fds closes w -> alive w.
Proof. intros [H _]. exact H. Qed.

Ltac descriptors_side :=
  intros; match goal with H : descriptors _ _ _ |- _ =>
    destruct H as ((?b & ?rq & ?tq & ? & ? & ?) & ? & ?) end;
  repeat match goal with q : which_queue |- _ => destruct q end;
  simpl in *; unfold descriptors, alive; simpl;
  rewrite ?filter_app; simpl; rewrite ?app_nil_r;
  try (split; [eauto 10 | split; auto]).

Section Descriptors.
Variable owner_read : list byte -> nat.
Variable fds : list Z.
Variable closes : list syscall.

Ltac keep_descriptors :=
  repeat keep1 (descriptors_alive fds closes) descriptors_side.

Lemma on_read_loop_descriptors script :
  forall acc,
    keeps (descriptors fds closes) (on_read_loop owner_read script acc).
Proof.
  induction script as [|r script IH]; intros; cbn [on_read_loop];
    unfold_ops; keep_descriptors.
Qed.

Lemma io_ready_descriptors revents so_error script :
  keeps (descriptors fds closes)
        (deliver owner_read (io_ready revents so_error script)).
Proof.
  pose proof on_read_loop_descriptors as Hr.
  unfold_ops; keep_descriptors.
Qed.

End Descriptors.

(** X16. Neither [on_connect] nor [on_read] opens or closes a descriptor:
    whatever readiness the reactor reports and whatever [getsockopt] and
    [recv] answer - the connect failed, it succeeded, the stream ended or
    broke - the handler runs without a fault, the descriptors open are the
    same as before, and no [close] has been called. *)
Theorem X16_readiness_never_closes owner_read revents so_error script w :
  alive w ->
  exists w',
    run (deliver owner_read (io_ready revents so_error script)) w
    = inr (tt, w') /\
    alive w' /\
    open_fds w' = open_fds w /\
    filter is_close (syscalls w') = filter is_close (syscalls w).
Proof.
  intros Hw.
  destruct (io_ready_descriptors owner_read (open_fds w)
              (filter is_close (syscalls w)) revents so_error script w)
    as ([] & w' & Hrun & Ha & Hfds & Hcl).
  - repeat split; auto.
  - exists w'. auto.
Qed.

(** *** Single operations *)

Ltac go1 :=
  first
    [ rewrite run_bind
    | rewrite run_ret
    | rewrite run_get
    | rewrite run_update
    | rewrite run_syscall_log
    | rewrite run_callback_log
    | rewrite run_close
    | rewrite run_socket
    | erewrite run_rd by (simpl; eauto)
    | erewrite run_wr by (simpl; eauto)
    | erewrite run_ev_io_stop by (simpl; eauto)
    | erewrite run_ev_io_start by (simpl; eauto)
    | erewrite run_ev_io_init by (simpl; eauto)
    | erewrite run_ev_timer_init by (simpl; eauto)
    | erewrite run_ev_timer_start by (simpl; eauto)
    | erewrite run_ev_timer_stop by (simpl; eauto)
    | erewrite run_close_sock by (simpl; eauto) ].

Ltac go := repeat (go1; cbv beta iota).

(** X3. While the kernel answers [EAGAIN] or [EINTR] the TCP case of
    [bufferev_write] does not return: it calls [send] again at once, with
    the whole payload, once for every such answer, and changes nothing
    else. *)
Theorem X3_tcp_write_spins_on_transient_errors w b buf answers :
  conn w = Live b -> proto b = network_proto_tcp ->
  forallb is_transient answers = true ->
  run (bufferev_write buf answers) w
  = inr (None,
         set_syscalls
           (syscalls w ++ map (fun _ => sys_send (sock b) buf (-1)) answers)
           w).
Proof.
  intros Hb Hp Hall. unfold bufferev_write.
  rewrite run_bind, (run_rd proto w b Hb), Hp. cbv beta iota.
  assert (Hloop : forall errno w0,
             conn w0 = Live b ->
             run (tcp_write_loop answers buf errno 0 0) w0
             = inr (None,
                    set_syscalls
                      (syscalls w0
                         ++ map (fun _ => sys_send (sock b) buf (-1)) answers)
                      w0)).
  { clear Hb Hp w. induction answers as [|a answers IH]; intros errno w Hb.
    - cbn [tcp_write_loop map]. rewrite run_ret. f_equal. f_equal.
      destruct w; simpl. now rewrite app_nil_r.
    - cbn [forallb] in Hall. apply andb_true_iff in Hall.
      destruct Hall as [Ha Hall]. destruct a as [room|e]; [discriminate|].
      cbn [is_transient] in Ha. apply negb_true_iff in Ha.
      unfold hard_error in Ha. apply negb_false_iff in Ha.
      cbn [tcp_write_loop send_rc send_errno].
      rewrite run_bind, (run_rd sock w b Hb).
      rewrite run_bind, run_syscall_log. cbv beta iota.
      change (0 <? -1) with false. change (-1 <? 0) with true.
      cbn [orb andb]. rewrite Ha.
      rewrite (IH Hall) by exact Hb.
      f_equal. f_equal. destruct w; simpl. now rewrite <- app_assoc. }
  now apply Hloop.
Qed.

Lemma taken_conserved owner_read has_cb cs :
  forall q,
    List.concat (map (taken owner_read) (read_calls owner_read has_cb q cs))
      ++ rx_after owner_read has_cb q cs
    = q ++ List.concat cs.
Proof.
  induction cs as [|c cs IH]; intros q; cbn [read_calls rx_after List.concat map].
  - simpl. now rewrite app_nil_r.
  - rewrite map_app, concat_app, <- app_assoc, IH.
    unfold rx_step. destruct has_cb; simpl.
    + rewrite app_nil_r, app_assoc, firstn_skipn, <- app_assoc. reflexivity.
    + now rewrite <- app_assoc.
Qed.

(** X4. One read-readiness invocation loses no byte and repeats none: the
    bytes the owner took off the queue in its [read_cb] calls, in order,
    followed by what the inbound queue holds afterwards, are what the queue
    held before followed by the chunks received. This holds whatever the
    owner reads, and without a [read_cb] too (then all of it is in the
    queue). *)
Theorem X4_on_read_conserves_bytes owner_read script w b q :
  conn w = Live b -> rx_queue w = Live q ->
  exists w' q' new_calls,
    run (on_read owner_read script) w = inr (tt, w') /\
    calls w' = calls w ++ new_calls /\
    rx_queue w' = Live q' /\
    List.concat (map (taken owner_read) new_calls) ++ q'
    = q ++ List.concat (chunks script) /\
    (read_cb b = false -> q' = q ++ List.concat (chunks script)).
Proof.
  intros Hb Hq.
  destruct (run_on_read owner_read script w b q Hb Hq)
    as (w' & b' & Hrun & _ & Hq' & _ & _ & _ & _ & Hcalls & _).
  exists w'. do 2 eexists. split; [exact Hrun|]. split; [exact Hcalls|].
  split; [exact Hq'|]. split.
  - rewrite map_app, concat_app, <- app_assoc.
    replace (List.concat
               (map (taken owner_read)
                    (if (total_length (chunks script) <=? 0) && event_cb b
                     then [call_event_cb BEV_EOF] else [])))
      with (@nil byte)
      by (destruct ((total_length (chunks script) <=? 0) && event_cb b);
          reflexivity).
    apply taken_conserved.
  - intros ->. apply rx_after_without_callback.
Qed.

(** X5. The end of the stream ends the notifications. When, on an
    established connection, the first [recv] of a read-readiness invocation
    gives no byte (the peer closed, an error, or nothing to read), the Eof
    event is delivered if [event_cb] is set, the descriptor stays open, and
    from then on no report of the reactor reaches the connection: whatever
    it reports changes nothing. *)
Theorem X5_nothing_after_eof owner_read revents so_error script w b :
  established w -> conn w = Live b -> loop_io w = true ->
  Z.land revents (io_events (data_ev b)) <> 0 ->
  chunks script = [] ->
  exists w1,
    run (deliver owner_read (io_ready revents so_error script)) w
    = inr (tt, w1) /\
    calls w1
    = calls w ++ (if event_cb b then [call_event_cb BEV_EOF] else []) /\
    open_fds w1 = open_fds w /\
    rx_queue w1 = rx_queue w /\
    forall es, run (deliver_all owner_read es) w1 = inr (tt, w1).
Proof.
  intros (b0 & q & Hb0 & Hq & Hcb & Hact & Ht & Hlt) Hb Hio Hev Hcs.
  rewrite Hb in Hb0. injection Hb0 as <-.
  destruct (run_on_read owner_read script w b q Hb Hq)
    as (w1 & b1 & Hrun & Hb1 & Hq1 & _ & Hfds & Hlt1 & _ & Hcalls & Hio1).
  rewrite Hcs in *. cbn [total_length fold_right read_calls rx_after app]
    in *. change (0 <=? 0) with true in *. cbn [andb] in *.
  rewrite Hact, Hio in Hio1. destruct Hio1 as [_ Hio1].
  exists w1. unfold deliver. rewrite run_bind, run_get, Hio.
  rewrite run_bind, (run_rd data_ev w b Hb). cbv beta iota.
  apply Z.eqb_neq in Hev. rewrite Hev, Hcb. cbn [negb].
  split; [exact Hrun|]. split; [exact Hcalls|]. split; [exact Hfds|].
  split; [congruence|].
  intros es. apply deliver_all_idle. split; congruence.
Qed.

(** X6. A connect attempt that fails asynchronously keeps its descriptor:
    [on_connect] reports the failure, unregisters watch and timer, and
    closes nothing, so that the descriptor stays open with nothing left to
    act on it. The teardown of the connection is what closes it, with one
    [close]. *)
Theorem X6_failed_connect_closed_by_teardown
        owner_read revents so_error script w fd rq tq :
  connecting w fd -> rx_queue w = Live rq -> tx_queue w = Live tq ->
  so_error <> 0 -> Z.land revents EV_WRITE <> 0 ->
  exists w1 w2,
    run (deliver owner_read (io_ready revents so_error script)) w
    = inr (tt, w1) /\
    idle w1 /\
    open_fds w1 = open_fds w /\
    syscalls w1 = syscalls w ++ [sys_getsockopt fd so_error] /\
    run bufferev_free w1 = inr (tt, w2) /\
    syscalls w2 = syscalls w1 ++ [sys_close fd] /\
    open_fds w2 = remove Z.eq_dec fd (open_fds w) /\
    ~ In fd (open_fds w2).
Proof.
  intros (b & Hb & Hfd & Hc & Hs & Hd & Ht & Hio & Hlt) Hrx Htx Hso Hev.
  assert (Hact : io_active (data_ev b) = true) by now rewrite Hd.
  assert (H1 : negb (so_error =? 0) = true)
    by now apply negb_true_iff, Z.eqb_neq.
  assert (H2 : negb (Z.land revents EV_WRITE =? 0) = true)
    by now apply negb_true_iff, Z.eqb_neq.
  assert (H3 : (0 <=? fd) = true) by lia.
  unfold deliver. rewrite run_bind, run_get, Hio.
  rewrite run_bind, (run_rd data_ev w b Hb). cbv beta iota.
  rewrite Hd. cbn [io_events io_cb]. rewrite H2.
  unfold on_connect. go. rewrite Hact. go. cbn [connect_timer set_data_ev].
  rewrite Ht. go. cbn [sock set_connect_timer set_data_ev]. rewrite H1.
  go. cbn [event_cb set_connect_timer set_data_ev].
  destruct (event_cb b); unfold invoke_event_cb; go;
    (eexists; eexists; split; [reflexivity|]);
    (split; [split; reflexivity|]);
    (split; [reflexivity|]);
    (split; [simpl; rewrite Hs; reflexivity|]);
    unfold bufferev_free; go; cbn [conn set_calls set_syscalls set_loop_timer
                                   set_loop_io set_conn];
    go; cbn [data_ev set_connect_timer set_data_ev io_active]; go;
    (erewrite run_buffer_queue_free by (simpl; eauto)); go;
    (erewrite run_buffer_queue_free by (simpl; eauto)); go;
    cbn [sock set_connect_timer set_data_ev]; rewrite Hs, H3;
    (erewrite run_free_be by (simpl; eauto));
    (split; [reflexivity|]); simpl; repeat split; auto;
    apply remove_In.
Qed.

(** X7. A connect attempt that fails before [bufferev_connect_addrinfo]
    returns leaves nothing behind: the result is -1, [be->sock] is negative,
    no descriptor is open that was not open before (the socket, if one was
    made, has been closed), the watch and the timer are as they were, and
    the one call made is [event_cb] with Error, if it is set. *)
Theorem X7_immediate_failure_leaves_nothing w b src dst k w' :
  conn w = Live b ->
  run (bufferev_connect_addrinfo src dst k) w = inr (-1, w') ->
  exists b',
    conn w' = Live b' /\ sock b' < 0 /\
    (forall fd, In fd (open_fds w') -> In fd (open_fds w)) /\
    data_ev b' = data_ev b /\ connect_timer b' = connect_timer b /\
    loop_io w' = loop_io w /\ loop_timer w' = loop_timer w /\
    calls w'
    = calls w ++ (if event_cb b then [call_event_cb BEV_ERROR] else []).
Proof.
  intros Hb Hrun. unfold bufferev_connect_addrinfo in Hrun.
  rewrite run_bind, run_socket in Hrun.
  destruct (0 <=? socket_ret k) eqn:Hfd.
  - assert (H2 : (socket_ret k <? 0) = false) by lia.
    revert Hrun. go. rewrite H2. go.
    destruct ((connect_ret k =? 0) || (connect_errno k =? EINPROGRESS)).
    + destruct src; go; simpl; go; simpl; intros H; discriminate H.
    + destruct src; go; simpl; rewrite Hfd; go; simpl;
        unfold invoke_event_cb;
        destruct (event_cb b); go; intros H; injection H as <-;
        eexists; (split; [reflexivity|]); simpl;
        rewrite ?app_nil_r;
        (repeat split; auto; try lia);
        destruct (Z.eq_dec (socket_ret k) (socket_ret k)); try congruence;
        intros fd Hin; apply in_remove in Hin; tauto.
  - assert (H2 : (socket_ret k <? 0) = true) by lia.
    revert Hrun. go. rewrite H2. go. simpl. unfold invoke_event_cb.
    destruct (event_cb b); go; intros H; injection H as <-;
      eexists; (split; [reflexivity|]); simpl; rewrite ?app_nil_r;
      repeat split; auto; lia.
Qed.

(** X8. [bufferev_new] returns a connection only when all three
    allocations succeed: a new connection with two empty queues, no
    callback, nothing registered and no system call made. Otherwise it
    returns [NULL] and no object or queue stays allocated; when it is a queue
    that could not be allocated, the object is torn down with [sock] still 0,
    which closes descriptor 0 of the process. *)
Theorem X8_new_is_all_or_nothing fds ok_be ok_rx ok_tx :
  exists w,
    run (bufferev_new ok_be ok_rx ok_tx) (empty_world fds)
    = inr (ok_be && ok_rx && ok_tx, w) /\
    if ok_be && ok_rx && ok_tx
    then new_connection w zeroed /\
         rx_queue w = Live [] /\ tx_queue w = Live [] /\
         syscalls w = [] /\ open_fds w = fds /\ calls w = []
    else ~ alive w /\
         (forall b, conn w <> Live b) /\
         (forall q, rx_queue w <> Live q) /\
         (forall q, tx_queue w <> Live q) /\
         syscalls w = (if ok_be then [sys_close 0] else []) /\
         open_fds w = (if ok_be then remove Z.eq_dec 0 fds else fds) /\
         calls w = [].
Proof.
  destruct ok_be, ok_rx, ok_tx; eexists; (split; [reflexivity|]);
    cbn [andb]; repeat split; try reflexivity; try discriminate;
    intros (b & rq & tq & H & _); discriminate H.
Qed.

(** X9. Adopting a connected descriptor: [bufferev_connect_tcp_sock] makes
    the descriptor non-blocking, takes TCP as the protocol, registers the
    read watch and delivers Connected before it returns, if [event_cb] is
    set; it arms no timer, opens and closes nothing, and leaves
    [be->connected] as it was. The connection is established from then
    on. *)
Theorem X9_adoption_establishes w b q fd :
  conn w = Live b -> rx_queue w = Live q ->
  timer_active (connect_timer b) = false -> loop_timer w = false ->
  exists w' b',
    run (bufferev_connect_tcp_sock fd) w = inr (0, w') /\
    established w' /\
    conn w' = Live b' /\
    sock b' = fd /\ proto b' = network_proto_tcp /\
    connected b' = connected b /\
    data_ev b' = mk_ev_io true h_on_read fd EV_READ /\
    loop_io w' = true /\ loop_timer w' = false /\
    syscalls w' = syscalls w ++ [sys_nonblocking fd] /\
    open_fds w' = open_fds w /\
    calls w'
    = calls w ++ (if event_cb b then [call_event_cb BEV_CONNECTED] else []).
Proof.
  intros Hb Hq Ht Hlt. unfold bufferev_connect_tcp_sock.
  go. simpl. unfold invoke_event_cb.
  destruct (event_cb b); go;
    do 2 eexists; (split; [reflexivity|]); simpl; rewrite ?app_nil_r;
    (split; [do 2 eexists; simpl; repeat split; eauto|]);
    repeat split; auto.
Qed.

(** X10. For a socket of a family other than [AF_INET] and [AF_INET6] the
    two address queries do not fail: they return an empty host string, not
    [NULL], and leave [*port] as the caller had it. *)
Theorem X10_other_family_gives_empty_host
        inet_ntop storage stack_addr frame port w b :
  conn w = Live b ->
  load16 storage 0 <> AF_INET -> load16 storage 0 <> AF_INET6 ->
  run (bufferev_get_local_addr inet_ntop (Some storage) stack_addr frame
         port) w
  = inr (Some (EmptyString, port),
         set_syscalls (syscalls w ++ [sys_getsockname (sock b) 0]) w) /\
  run (bufferev_get_peer_addr inet_ntop (Some storage) stack_addr frame
         port) w
  = inr (Some (EmptyString, port),
         set_syscalls (syscalls w ++ [sys_getpeername (sock b) 0]) w).
Proof.
  intros Hb H4 H6.
  assert (E : parse_sockaddr inet_ntop stack_addr storage frame port
              = (EmptyString, port)).
  { unfold parse_sockaddr. apply Z.eqb_neq in H4. apply Z.eqb_neq in H6.
    now rewrite H4, H6. }
  unfold bufferev_get_local_addr, bufferev_get_peer_addr.
  split; go; rewrite E; reflexivity.
Qed.

(** X11. [close_sock] closes at most once: it sets [be->sock] to -1 when it
    closes, so that calling it again does nothing. *)
Theorem X11_close_sock_idempotent w b :
  conn w = Live b ->
  run (bind close_sock (fun _ => close_sock)) w = run close_sock w /\
  exists w' b',
    run close_sock w = inr (tt, w') /\ conn w' = Live b' /\
    sock b' < 0 /\
    filter is_close (syscalls w')
    = filter is_close (syscalls w)
        ++ (if 0 <=? sock b then [sys_close (sock b)] else []).
Proof.
  intros Hb. split.
  - go. destruct (0 <=? sock b) eqn:Hs; go; simpl; rewrite ?Hs; reflexivity.
  - go. destruct (0 <=? sock b) eqn:Hs; do 2 eexists;
      (split; [reflexivity|]); simpl; rewrite ?filter_app, ?app_nil_r;
      repeat split; eauto; lia.
Qed.

(** X12. The connect timeout relies on [be->connected] being 0. On an
    object that has been connected before ([connected] is set once and never
    reset), a new connect attempt that times out is dropped silently: the
    timer is disarmed, but nothing is called back, the socket stays open and
    the connect watch stays registered. *)
Theorem X12_timeout_ignored_once_connected
        owner_read w b src dst k w1 :
  conn w = Live b -> connected b <> 0 ->
  run (bufferev_connect_addrinfo src dst k) w = inr (0, w1) ->
  exists w2 b2,
    run (deliver owner_read timer_expired) w1 = inr (tt, w2) /\
    calls w2 = calls w /\
    conn w2 = Live b2 /\
    sock b2 = socket_ret k /\ In (socket_ret k) (open_fds w2) /\
    data_ev b2 = mk_ev_io true h_on_connect (socket_ret k) EV_WRITE /\
    loop_io w2 = true /\ loop_timer w2 = false /\
    filter is_close (syscalls w2) = filter is_close (syscalls w).
Proof.
  intros Hb Hc Hrun.
  assert (Hfd : 0 <= socket_ret k).
  { destruct (Z.lt_ge_cases (socket_ret k) 0) as [Hneg|Hfd]; [|exact Hfd].
    destruct (connect_socket_fails w b src dst k Hb Hneg) as (w' & H & _).
    rewrite H in Hrun. discriminate. }
  assert (Hrc : connect_ret k = 0 \/ connect_errno k = EINPROGRESS).
  { destruct (Z.eq_dec (connect_ret k) 0) as [Hrc|Hrc]; [now left|].
    destruct (Z.eq_dec (connect_errno k) EINPROGRESS) as [He|He];
      [now right|].
    destruct (connect_refused w b src dst k Hb Hfd Hrc He) as (w' & H & _).
    rewrite H in Hrun. discriminate. }
  assert (H1 : (0 <=? socket_ret k) = true) by lia.
  assert (H2 : (socket_ret k <? 0) = false) by lia.
  assert (H3 : ((connect_ret k =? 0) || (connect_errno k =? EINPROGRESS))
               = true).
  { apply orb_true_iff. destruct Hrc; [left|right]; now apply Z.eqb_eq. }
  assert (H4 : (connected b =? 0) = false) by now apply Z.eqb_neq.
  unfold bufferev_connect_addrinfo in Hrun.
  rewrite run_bind, run_socket, H1 in Hrun. revert Hrun.
  go. rewrite H2. go.
  destruct src; go; rewrite H3; go; simpl; go; simpl; intros H;
    injection H as <-; unfold deliver; go; cbn [loop_timer set_loop_timer];
    unfold on_connect_timeout; go; simpl; go; simpl; rewrite H4; go;
    do 2 eexists; (split; [reflexivity|]); simpl;
    rewrite ?filter_app; simpl; rewrite ?app_nil_r;
    repeat split; auto.
Qed.

(** X17. Teardown does not disarm the connect timer. Tearing down a
    connection whose connect attempt is pending succeeds and leaves the
    timer registered with the reactor; when it expires,
    [on_connect_timeout] runs on the released object. *)
Theorem X17_teardown_while_connecting owner_read w fd rq tq :
  connecting w fd -> rx_queue w = Live rq -> tx_queue w = Live tq ->
  exists w',
    run bufferev_free w = inr (tt, w') /\
    conn w' = Freed /\
    loop_io w' = false /\ loop_timer w' = true /\
    ~ In fd (open_fds w') /\
    run (deliver owner_read timer_expired) w' = inl use_after_free.
Proof.
  intros (b & Hb & Hfd & Hc & Hs & Hd & Ht & Hio & Hlt) Hrx Htx.
  destruct (run_bufferev_free w b rq tq Hb Hrx Htx)
    as (w' & Hrun & Hc' & _ & _ & Hio' & Hlt' & _ & Hfds & _).
  exists w'. split; [exact Hrun|]. split; [exact Hc'|].
  rewrite Hd in Hio'. cbn [io_active] in Hio'.
  assert (H3 : (0 <=? sock b) = true) by lia. rewrite H3, Hs in Hfds.
  split; [exact Hio'|]. split; [congruence|]. split.
  - rewrite Hfds. apply remove_In.
  - unfold deliver. rewrite run_bind, run_get, Hlt', Hlt.
    unfold on_connect_timeout, ev_timer_stop, rd, deref.
    rewrite !run_bind, run_get, Hc'. reflexivity.
Qed.

(** *** The properties on the sample worlds *)

Lemma X1_str_to_proto_characterised_witness :
  network_str_to_proto "UdP" = network_proto_udp.
Proof. exact (X1_str_to_proto_characterised "UdP" eq_refl). Defined.

Lemma X2_str_to_proto_ignores_case_witness :
  network_str_to_proto "TLS" = network_str_to_proto "tls".
Proof. exact (X2_str_to_proto_ignores_case "TLS" "tls" eq_refl). Defined.

Lemma X3_tcp_write_spins_on_transient_errors_witness :
  exists w',
    run (bufferev_write [x70; x69]
           [send_fail EAGAIN; send_fail EINTR; send_fail EAGAIN])
        sample_connected = inr (None, w').
Proof.
  eexists.
  exact (X3_tcp_write_spins_on_transient_errors sample_connected
           (mk_bufferev (mk_ev_timer false) network_proto_tcp 3 1
                        (mk_ev_io true h_on_read 3 EV_READ) true true true)
           [x70; x69] [send_fail EAGAIN; send_fail EINTR; send_fail EAGAIN]
           eq_refl eq_refl eq_refl).
Defined.

Lemma X4_on_read_conserves_bytes_witness :
  exists w' q' new_calls,
    run (on_read reads_all sample_script) sample_connected = inr (tt, w') /\
    rx_queue w' = Live q' /\
    List.concat (map (taken reads_all) new_calls) ++ q'
    = [] ++ List.concat (chunks sample_script).
Proof.
  destruct (X4_on_read_conserves_bytes reads_all sample_script
              sample_connected
              (mk_bufferev (mk_ev_timer false) network_proto_tcp 3 1
                           (mk_ev_io true h_on_read 3 EV_READ) true true true)
              [] eq_refl eq_refl)
    as (w' & q' & new_calls & H1 & _ & H2 & H3 & _).
  exists w', q', new_calls. auto.
Defined.

Lemma X5_nothing_after_eof_witness :
  exists w1,
    run (deliver reads_all (io_ready EV_READ 0 [recv_ok []])) sample_connected
    = inr (tt, w1) /\
    forall es, run (deliver_all reads_all es) w1 = inr (tt, w1).
Proof.
  destruct (X5_nothing_after_eof reads_all EV_READ 0 [recv_ok []]
              sample_connected
              (mk_bufferev (mk_ev_timer false) network_proto_tcp 3 1
                           (mk_ev_io true h_on_read 3 EV_READ) true true true))
    as (w1 & H1 & _ & _ & _ & H2).
  - do 2 eexists. repeat split; reflexivity.
  - reflexivity.
  - reflexivity.
  - discriminate.
  - reflexivity.
  - exists w1. auto.
Defined.

Lemma X6_failed_connect_closed_by_teardown_witness :
  exists w1 w2,
    run (deliver reads_all (io_ready EV_WRITE 111 [])) sample_connecting
    = inr (tt, w1) /\
    run bufferev_free w1 = inr (tt, w2) /\
    ~ In 3 (open_fds w2).
Proof.
  destruct (X6_failed_connect_closed_by_teardown reads_all EV_WRITE 111 []
              sample_connecting 3 [] [])
    as (w1 & w2 & H1 & _ & _ & _ & H2 & _ & _ & H3).
  - eexists. repeat split; try reflexivity. discriminate.
  - reflexivity.
  - reflexivity.
  - discriminate.
  - discriminate.
  - exists w1, w2. auto.
Defined.

Lemma X7_immediate_failure_leaves_nothing_witness :
  exists b',
    conn sample_refused = Live b' /\ sock b' < 0 /\
    (forall fd, In fd (open_fds sample_refused) ->
                In fd (open_fds sample_new)).
Proof.
  destruct (X7_immediate_failure_leaves_nothing sample_new
              (set_cbs true true true zeroed) None sample_dst sample_refusal
              sample_refused eq_refl eq_refl)
    as (b' & H1 & H2 & H3 & _).
  exists b'. auto.
Defined.

Lemma X9_adoption_establishes_witness :
  exists w',
    run (bufferev_connect_tcp_sock 7) sample_new = inr (0, w') /\
    established w'.
Proof.
  destruct (X9_adoption_establishes sample_new
              (set_cbs true true true zeroed) [] 7
              eq_refl eq_refl eq_refl eq_refl)
    as (w' & b' & H1 & H2 & _).
  exists w'. auto.
Defined.

Lemma X10_other_family_gives_empty_host_witness :
  run (bufferev_get_local_addr sample_ntop (Some [x01; x00])
         sample_stack_addr [] 5) sample_connected
  = inr (Some (EmptyString, 5),
         set_syscalls (syscalls sample_connected ++ [sys_getsockname 3 0])
                      sample_connected).
Proof.
  refine (proj1 (X10_other_family_gives_empty_host sample_ntop [x01; x00]
                   sample_stack_addr [] 5 sample_connected
                   (mk_bufferev (mk_ev_timer false) network_proto_tcp 3 1
                                (mk_ev_io true h_on_read 3 EV_READ)
                                true true true)
                   eq_refl _ _)); discriminate.
Defined.

Lemma X11_close_sock_idempotent_witness :
  run (bind close_sock (fun _ => close_sock)) sample_connected
  = run close_sock sample_connected.
Proof.
  exact (proj1 (X11_close_sock_idempotent sample_connected
                  (mk_bufferev (mk_ev_timer false) network_proto_tcp 3 1
                               (mk_ev_io true h_on_read 3 EV_READ)
                               true true true) eq_refl)).
Defined.

Lemma X12_timeout_ignored_once_connected_witness :
  exists w2,
    run (deliver reads_all timer_expired) sample_reconnecting = inr (tt, w2) /\
    calls w2 = calls sample_connected /\
    In 4 (open_fds w2).
Proof.
  destruct (X12_timeout_ignored_once_connected reads_all sample_connected
              (mk_bufferev (mk_ev_timer false) network_proto_tcp 3 1
                           (mk_ev_io true h_on_read 3 EV_READ) true true true)
              None sample_dst sample_second sample_reconnecting)
    as (w2 & b2 & H1 & H2 & _ & _ & H3 & _).
  - reflexivity.
  - discriminate.
  - reflexivity.
  - exists w2. auto.
Defined.


Lemma X15_no_callback_no_call_witness :
  exists w',
    run (perform_all reads_all sample_ntop sample_session) sample_bare
    = inr (tt, w') /\
    calls w' = calls sample_bare.
Proof.
  exact (X15_no_callback_no_call reads_all sample_ntop sample_session
           sample_bare zeroed [] []
           eq_refl eq_refl eq_refl eq_refl eq_refl eq_refl).
Defined.

Lemma X16_readiness_never_closes_witness :
  exists w',
    run (deliver reads_all (io_ready EV_READ 0 sample_script))
        sample_connected = inr (tt, w') /\
    alive w' /\
    open_fds w' = open_fds sample_connected /\
    filter is_close (syscalls w')
    = filter is_close (syscalls sample_connected).
Proof.
  apply X16_readiness_never_closes.
  do 3 eexists. repeat split; reflexivity.
Defined.

Lemma X17_teardown_while_connecting_witness :
  exists w',
    run bufferev_free sample_connecting = inr (tt, w') /\
    loop_timer w' = true /\
    run (deliver reads_all timer_expired) w' = inl use_after_free.
Proof.
  destruct (X17_teardown_while_connecting reads_all sample_connecting 3
              [] [])
    as (w' & H1 & _ & _ & H2 & _ & H3).
  - eexists. repeat split; try reflexivity. discriminate.
  - reflexivity.
  - reflexivity.
  - exists w'. auto.
Defined.

End ApiFacts.
